(** * Brand-mention checker: the detector, the generation orchestrator and
      the request handler of [backend/server.js], embedded in Rocq.

    JavaScript strings are modelled as lists of code units.  The model keeps
    to code units below 256 (the Latin-1 range), on which [toLowerCase],
    [trim], the whitespace class and the case folding of the [i] flag are
    closed, so that every operation below is the exact restriction of the
    JavaScript one to such strings.  Beyond that range [toLowerCase] can
    change the length of a string (U+0130 becomes two code units) and is
    not the folding of the [i] flag; what is stated about case is therefore
    stated code unit by code unit ([Folding]), in the form that does not
    depend on the range.

    Numbers are [Z]; [null] and [undefined] are [None].  An exception is an
    outcome of its own: the detector ends with a result or throws the
    SyntaxError of [new RegExp]; the handler sends a response or rejects.
    The handler is given twice: over bodies whose fields are strings
    ([Handler]), and over bodies whose fields are any JSON value ([Wire]),
    where [trim] and [toLowerCase] throw on what is not a string.
    The generation capability is a parameter: what each call does (it
    throws, or a response of a given shape arrives) is given by a function of
    the model identifier and the prompt.  Logging is left out. *)

From Stdlib Require Import Bool Arith ZArith List Ascii String Lia.
Import ListNotations.

(* ================================================================== *)
(** ** String.prototype                                                 *)
(* ================================================================== *)

Module JSString.

Definition str := list ascii.

(** A string literal as a list of code units. *)
Definition lit (s : string) : str := list_ascii_of_string s.

Definition code (c : ascii) : nat := nat_of_ascii c.

Definition in_range (lo hi : nat) (c : ascii) : bool :=
  (lo <=? code c) && (code c <=? hi).

Definition eqc (a b : ascii) : bool := Ascii.eqb a b.

(** [s.length] *)
Definition len (s : str) : Z := Z.of_nat (List.length s).

(** WhiteSpace and LineTerminator code units below 256: TAB, LF, VT, FF,
    CR, SP and NBSP.  This is the class [\s] and what [trim] removes. *)
Definition isWhiteSpace (c : ascii) : bool :=
  in_range 9 13 c || (code c =? 32) || (code c =? 160).

(** [toLowerCase] on one code unit: A-Z and the Latin-1 capitals
    U+00C0..U+00DE (the multiplication sign U+00D7 apart). *)
Definition lowerChar (c : ascii) : ascii :=
  if in_range 65 90 c then ascii_of_nat (code c + 32)
  else if in_range 192 222 c && negb (code c =? 215)
       then ascii_of_nat (code c + 32)
       else c.

Definition toLowerCase (s : str) : str := map lowerChar s.

Fixpoint trimStart (s : str) : str :=
  match s with
  | c :: s' => if isWhiteSpace c then trimStart s' else s
  | [] => []
  end.

Definition trimEnd (s : str) : str := rev (trimStart (rev s)).

(** [s.trim()] *)
Definition trim (s : str) : str := trimEnd (trimStart s).

Fixpoint startsWith (s p : str) : bool :=
  match p, s with
  | [], _ => true
  | a :: p', b :: s' => eqc a b && startsWith s' p'
  | _ :: _, [] => false
  end.

(** [s.includes(p)] *)
Fixpoint includes (s p : str) : bool :=
  startsWith s p ||
  match s with
  | [] => false
  | _ :: s' => includes s' p
  end.

(** [s.indexOf(p)]: the first index at which [p] occurs, or -1. *)
Fixpoint indexOf (s p : str) : Z :=
  if startsWith s p then 0%Z
  else match s with
       | [] => (-1)%Z
       | _ :: s' => let k := indexOf s' p in
                    if (k <? 0)%Z then (-1)%Z else (k + 1)%Z
       end.

(** [s.split(re)] for a regular expression [re] that matches exactly the
    single code units satisfying [sep], as [/[.\n]/] does. *)
Fixpoint splitChars (sep : ascii -> bool) (s : str) : list str :=
  match s with
  | [] => [[]]
  | c :: s' =>
      if sep c then [] :: splitChars sep s'
      else match splitChars sep s' with
           | seg :: rest => (c :: seg) :: rest
           | [] => [[c]]
           end
  end.

(** [s.split(/\s+/)]: the pieces between maximal runs of whitespace;
    [inRun] tells that the code unit before [s] was whitespace. *)
Fixpoint splitRuns (inRun : bool) (s : str) : list str :=
  match s with
  | [] => [[]]
  | c :: s' =>
      if isWhiteSpace c
      then if inRun then splitRuns true s' else [] :: splitRuns true s'
      else match splitRuns false s' with
           | seg :: rest => (c :: seg) :: rest
           | [] => [[c]]
           end
  end.

Definition splitWhitespace (s : str) : list str := splitRuns false s.

(** [parts.join(sep)] *)
Fixpoint join (sep : str) (parts : list str) : str :=
  match parts with
  | [] => []
  | [p] => p
  | p :: rest => p ++ sep ++ join sep rest
  end.

Definition isLowerAlnum (c : ascii) : bool :=
  in_range 97 122 c || in_range 48 57 c.

(** [s.replace(/[^a-z0-9]/g, '')] *)
Definition stripNonAlnum (s : str) : str := filter isLowerAlnum s.

End JSString.

(* ================================================================== *)
(** ** RegExp                                                           *)
(* ================================================================== *)

(** The pattern language of [new RegExp(source, 'i')] without the [u]
    flag (ECMAScript with the Annex B extensions), and [RegExp.prototype.test].

    The syntax tree covers literals, the dot, classes, class escapes,
    groups, alternation, quantifiers (greedy and lazy), [^], [$], word
    boundaries, lookahead and lookbehind.  Backreferences, legacy octal
    escapes, named groups, other [(?] forms, [\u] escapes of code units
    above 255 and braced bounds from 2^31 - 1 on are outside the model: a
    pattern that uses one is reported as [Outside] instead of being given a
    meaning.  Without backreferences the
    value of [test] depends only on which end positions are reachable, so
    the matcher computes sets of end positions and ignores captures and
    match priority. *)

Module RegExp.
Import JSString.

Inductive ClassEscape : Type :=
| Digit | NotDigit | Space | NotSpace | Word | NotWord.

Inductive ClassItem : Type :=
| CChar (c : ascii)
| CRange (lo hi : ascii)
| CEsc (e : ClassEscape).

Inductive Regex : Type :=
| Empty
| Char (c : ascii)
| Dot
| Class (negated : bool) (items : list ClassItem)
| Seq (r1 r2 : Regex)
| Alt (r1 r2 : Regex)
| Group (r : Regex)
| Repeat (r : Regex) (min : nat) (max : option nat) (greedy : bool)
| AssertStart
| AssertEnd
| WordBoundary (negated : bool)
| Lookahead (negated : bool) (r : Regex)
| Lookbehind (negated : bool) (r : Regex).

(** *** Parsing *)

Inductive Parse (A : Type) : Type :=
| Parsed (a : A) (rest : str)
| Invalid            (* the pattern is a SyntaxError *)
| Outside.           (* the pattern uses a construct outside the model *)
Arguments Parsed {A} a rest.
Arguments Invalid {A}.
Arguments Outside {A}.

Definition bind {A B} (p : Parse A) (k : A -> str -> Parse B) : Parse B :=
  match p with
  | Parsed a rest => k a rest
  | Invalid => Invalid
  | Outside => Outside
  end.

Definition chr (n : nat) : ascii := ascii_of_nat n.

Definition isDigit (c : ascii) : bool := in_range 48 57 c.
Definition isAsciiLetter (c : ascii) : bool :=
  in_range 65 90 c || in_range 97 122 c.
Definition isWordChar (c : ascii) : bool :=
  isAsciiLetter c || isDigit c || (code c =? 95).

Definition hexValue (c : ascii) : option nat :=
  if isDigit c then Some (code c - 48)
  else if in_range 65 70 c then Some (code c - 55)
  else if in_range 97 102 c then Some (code c - 87)
  else None.

(** DecimalDigits, read as far as they go. *)
Fixpoint digitsFrom (acc : nat) (s : str) : nat * str :=
  match s with
  | c :: s' => if isDigit c then digitsFrom (10 * acc + (code c - 48)) s'
               else (acc, s)
  | [] => (acc, [])
  end.

Definition decimalDigits (s : str) : option (nat * str) :=
  match s with
  | c :: _ => if isDigit c then Some (digitsFrom 0 s) else None
  | [] => None
  end.

(** What follows an opening brace when it starts [{n}], [{n,}] or
    [{n,m}]. *)
Definition bracedBounds (s : str) : option (nat * option nat * str) :=
  match decimalDigits s with
  | None => None
  | Some (n, s1) =>
      match s1 with
      | "}"%char :: s2 => Some (n, Some n, s2)
      | ","%char :: "}"%char :: s2 => Some (n, None, s2)
      | ","%char :: s2 =>
          match decimalDigits s2 with
          | Some (m, "}"%char :: s3) => Some (n, Some m, s3)
          | _ => None
          end
      | _ => None
      end
  end.

Record Quantifier : Type :=
  { qmin : nat; qmax : option nat; qgreedy : bool }.

Definition lazySuffix (min : nat) (max : option nat) (s : str)
  : Parse (option Quantifier) :=
  match s with
  | "?"%char :: s' => Parsed (Some {| qmin := min; qmax := max; qgreedy := false |}) s'
  | _ => Parsed (Some {| qmin := min; qmax := max; qgreedy := true |}) s
  end.

(** Whether a bound of a braced quantifier is read as it is written.
    ECMA-262 compares the two numbers of [{n,m}] as written; Node's engine
    keeps them in 32-bit integers and saturates them at 2^31 - 1 before it
    compares them, so that it accepts [a{2147483648,2147483647}].  A bound
    from 2^31 - 1 on is therefore given no meaning here. *)
Definition readAsWritten (n : nat) : bool := (Z.of_nat n <? 2147483647)%Z.

(** Quantifier, if one starts here. *)
Definition parseQuantifier (s : str) : Parse (option Quantifier) :=
  match s with
  | "*"%char :: s' => lazySuffix 0 None s'
  | "+"%char :: s' => lazySuffix 1 None s'
  | "?"%char :: s' => lazySuffix 0 (Some 1) s'
  | "{"%char :: s' =>
      match bracedBounds s' with
      | Some (n, Some m, s2) =>
          if negb (readAsWritten n && readAsWritten m) then Outside
          else if m <? n then Invalid       (* numbers out of order *)
          else lazySuffix n (Some m) s2
      | Some (n, None, s2) =>
          if readAsWritten n then lazySuffix n None s2 else Outside
      | None => Parsed None s
      end
  | _ => Parsed None s
  end.

Inductive Escape : Type :=
| EChar (c : ascii)
| ESet (e : ClassEscape).

(** What follows a backslash.  [inClass] selects ClassEscape. *)
Definition parseEscape (inClass : bool) (s : str) : Parse Escape :=
  match s with
  | [] => Invalid                            (* \ at end of pattern *)
  | c :: rest =>
      if eqc c "d" then Parsed (ESet Digit) rest
      else if eqc c "D" then Parsed (ESet NotDigit) rest
      else if eqc c "s" then Parsed (ESet Space) rest
      else if eqc c "S" then Parsed (ESet NotSpace) rest
      else if eqc c "w" then Parsed (ESet Word) rest
      else if eqc c "W" then Parsed (ESet NotWord) rest
      else if eqc c "f" then Parsed (EChar (chr 12)) rest
      else if eqc c "n" then Parsed (EChar (chr 10)) rest
      else if eqc c "r" then Parsed (EChar (chr 13)) rest
      else if eqc c "t" then Parsed (EChar (chr 9)) rest
      else if eqc c "v" then Parsed (EChar (chr 11)) rest
      else if inClass && eqc c "b" then Parsed (EChar (chr 8)) rest
      else if eqc c "c" then
        match rest with
        | l :: rest' =>
            if isAsciiLetter l || (inClass && (isDigit l || (code l =? 95)))
            then Parsed (EChar (chr (code l mod 32))) rest'
            else Parsed (EChar "\"%char) s   (* a literal backslash; c stays *)
        | [] => Parsed (EChar "\"%char) s
        end
      else if eqc c "0" then
        match rest with
        | d :: _ => if isDigit d then Outside else Parsed (EChar (chr 0)) rest
        | [] => Parsed (EChar (chr 0)) rest
        end
      else if isDigit c then Outside          (* backreference or octal *)
      else if eqc c "x" then
        match rest with
        | h1 :: h2 :: rest' =>
            match hexValue h1, hexValue h2 with
            | Some a, Some b => Parsed (EChar (chr (16 * a + b))) rest'
            | _, _ => Parsed (EChar c) rest
            end
        | _ => Parsed (EChar c) rest
        end
      else if eqc c "u" then
        match rest with
        | h1 :: h2 :: h3 :: h4 :: rest' =>
            match hexValue h1, hexValue h2, hexValue h3, hexValue h4 with
            | Some a, Some b, Some c3, Some d =>
                if (a =? 0) && (b =? 0)
                then Parsed (EChar (chr (16 * c3 + d))) rest'
                else Outside
            | _, _, _, _ => Parsed (EChar c) rest
            end
        | _ => Parsed (EChar c) rest
        end
      else Parsed (EChar c) rest               (* identity escape *)
  end.

Definition classAtom (s : str) : Parse Escape :=
  match s with
  | [] => Invalid
  | "\"%char :: rest => parseEscape true rest
  | c :: rest => Parsed (EChar c) rest
  end.

Definition itemOf (e : Escape) : ClassItem :=
  match e with
  | EChar c => CChar c
  | ESet k => CEsc k
  end.

(** ClassRanges up to the closing bracket.  Every atom takes at least
    one code unit, so [fuel] above the length of [s] is never used up. *)
Fixpoint classRanges (fuel : nat) (s : str) : Parse (list ClassItem) :=
  match fuel with
  | O => Outside
  | S fuel' =>
      match s with
      | [] => Invalid                          (* unterminated class *)
      | "]"%char :: rest => Parsed [] rest
      | _ =>
          bind (classAtom s) (fun a s1 =>
            match s1 with
            | "-"%char :: ((b0 :: _) as s2) =>
                if eqc b0 "]" then
                  bind (classRanges fuel' s1) (fun items rest =>
                    Parsed (itemOf a :: items) rest)
                else
                  bind (classAtom s2) (fun b s3 =>
                    match a, b with
                    | EChar lo, EChar hi =>
                        if code hi <? code lo then Invalid  (* out of order *)
                        else bind (classRanges fuel' s3) (fun items rest =>
                               Parsed (CRange lo hi :: items) rest)
                    | _, _ =>
                        bind (classRanges fuel' s3) (fun items rest =>
                          Parsed (itemOf a :: CChar "-" :: itemOf b :: items) rest)
                    end)
            | _ =>
                bind (classRanges fuel' s1) (fun items rest =>
                  Parsed (itemOf a :: items) rest)
            end)
      end
  end.

Definition parseClass (s : str) : Parse Regex :=
  match s with
  | "^"%char :: s' =>
      bind (classRanges (S (List.length s')) s') (fun items rest =>
        Parsed (Class true items) rest)
  | _ =>
      bind (classRanges (S (List.length s)) s) (fun items rest =>
        Parsed (Class false items) rest)
  end.

Definition closeGroup (mk : Regex -> Regex) (p : Parse Regex) : Parse Regex :=
  bind p (fun r rest =>
    match rest with
    | ")"%char :: rest' => Parsed (mk r) rest'
    | _ => Invalid                             (* unterminated group *)
    end).

Section Terms.
(** The parser of a Disjunction one nesting level down. *)
Variable disjunction : str -> Parse Regex.

(** An assertion or an atom, with whether a quantifier may follow. *)
Definition parseAtom (s : str) : Parse (Regex * bool) :=
  match s with
  | [] => Invalid
  | c :: rest =>
      if eqc c "^" then Parsed (AssertStart, false) rest
      else if eqc c "$" then Parsed (AssertEnd, false) rest
      else if eqc c "." then Parsed (Dot, true) rest
      else if eqc c "*" || eqc c "+" || eqc c "?" then Invalid  (* nothing to repeat *)
      else if eqc c "{" then
        match bracedBounds rest with
        | Some _ => Invalid                  (* nothing to repeat *)
        | None => Parsed (Char c, true) rest
        end
      else if eqc c "[" then
        bind (parseClass rest) (fun r rest' => Parsed (r, true) rest')
      else if eqc c "\" then
        match rest with
        | "b"%char :: rest' => Parsed (WordBoundary false, false) rest'
        | "B"%char :: rest' => Parsed (WordBoundary true, false) rest'
        | _ =>
            bind (parseEscape false rest) (fun e rest' =>
              match e with
              | EChar x => Parsed (Char x, true) rest'
              | ESet k => Parsed (Class false [CEsc k], true) rest'
              end)
        end
      else if eqc c "(" then
        match rest with
        | "?"%char :: ":"%char :: body =>
            bind (closeGroup Group (disjunction body)) (fun r rest' =>
              Parsed (r, true) rest')
        | "?"%char :: "="%char :: body =>
            bind (closeGroup (Lookahead false) (disjunction body)) (fun r rest' =>
              Parsed (r, true) rest')
        | "?"%char :: "!"%char :: body =>
            bind (closeGroup (Lookahead true) (disjunction body)) (fun r rest' =>
              Parsed (r, true) rest')
        | "?"%char :: "<"%char :: "="%char :: body =>
            bind (closeGroup (Lookbehind false) (disjunction body)) (fun r rest' =>
              Parsed (r, false) rest')
        | "?"%char :: "<"%char :: "!"%char :: body =>
            bind (closeGroup (Lookbehind true) (disjunction body)) (fun r rest' =>
              Parsed (r, false) rest')
        | "?"%char :: _ => Outside
        | _ =>
            bind (closeGroup Group (disjunction rest)) (fun r rest' =>
              Parsed (r, true) rest')
        end
      else Parsed (Char c, true) rest
  end.

Definition parseTerm (s : str) : Parse Regex :=
  bind (parseAtom s) (fun a rest =>
    if snd a then
      bind (parseQuantifier rest) (fun q rest' =>
        match q with
        | Some q => Parsed (Repeat (fst a) (qmin q) (qmax q) (qgreedy q)) rest'
        | None => Parsed (fst a) rest'
        end)
    else Parsed (fst a) rest).

(** Alternative: terms up to a bar, a closing parenthesis or the end. *)
Fixpoint parseAlternative (fuel : nat) (s : str) : Parse Regex :=
  match s with
  | [] => Parsed Empty s
  | c :: _ =>
      if eqc c "|" || eqc c ")" then Parsed Empty s
      else match fuel with
           | O => Outside
           | S fuel' =>
               bind (parseTerm s) (fun t rest =>
                 bind (parseAlternative fuel' rest) (fun a rest' =>
                   Parsed (Seq t a) rest'))
           end
  end.

Fixpoint parseAlternatives (fuel : nat) (s : str) : Parse Regex :=
  bind (parseAlternative (List.length s) s) (fun a rest =>
    match rest with
    | "|"%char :: rest' =>
        match fuel with
        | O => Outside
        | S fuel' =>
            bind (parseAlternatives fuel' rest') (fun d rest'' =>
              Parsed (Alt a d) rest'')
        end
    | _ => Parsed a rest
    end).
End Terms.

(** Disjunction, with [depth] bounding the nesting of groups. *)
Fixpoint parseDisjunction (depth : nat) (s : str) : Parse Regex :=
  match depth with
  | O => Outside
  | S depth' =>
      parseAlternatives (parseDisjunction depth') (List.length s) s
  end.

Inductive Compilation : Type :=
| Compiled (r : Regex)
| SyntaxError
| Unsupported.

Definition parsePattern (source : str) : Compilation :=
  match parseDisjunction (S (List.length source)) source with
  | Parsed r [] => Compiled r
  | Parsed _ (_ :: _) => SyntaxError           (* unmatched ')' *)
  | Invalid => SyntaxError
  | Outside => Unsupported
  end.

(** *** Matching *)

(** A position in the input: the code units before it, nearest first,
    and the code units from it on. *)
Definition State : Type := (str * str)%type.

(** Canonicalize of the [i] flag: [toUpperCase] of one code unit.  The
    sharp s, the micro sign and y-diaeresis have no upper case below 256
    and stay as they are. *)
Definition upperChar (c : ascii) : ascii :=
  if in_range 97 122 c then chr (code c - 32)
  else if in_range 224 254 c && negb (code c =? 247) then chr (code c - 32)
  else c.

Definition canonicalize (ignoreCase : bool) (c : ascii) : ascii :=
  if ignoreCase then upperChar c else c.

Definition isLineTerminator (c : ascii) : bool :=
  (code c =? 10) || (code c =? 13).

Definition escapeMatches (e : ClassEscape) (c : ascii) : bool :=
  match e with
  | Digit => isDigit c
  | NotDigit => negb (isDigit c)
  | Space => isWhiteSpace c
  | NotSpace => negb (isWhiteSpace c)
  | Word => isWordChar c
  | NotWord => negb (isWordChar c)
  end.

(** Whether some member of the class item canonicalizes as [c] does. *)
Definition itemMatches (ignoreCase : bool) (c : ascii) (it : ClassItem) : bool :=
  match it with
  | CChar a => eqc (canonicalize ignoreCase a) (canonicalize ignoreCase c)
  | CRange lo hi =>
      in_range (code lo) (code hi) c ||
      (ignoreCase &&
       (in_range (code lo) (code hi) (upperChar c) ||
        in_range (code lo) (code hi) (lowerChar c)))
  | CEsc e => escapeMatches e c
  end.

Definition step (ok : ascii -> bool) (st : State) : list State :=
  match snd st with
  | x :: rest => if ok x then [(x :: fst st, rest)] else []
  | [] => []
  end.

Definition progress (st st' : State) : bool :=
  List.length (snd st') <? List.length (snd st).

Definition predMax (max : option nat) : option nat :=
  match max with
  | Some m => Some (pred m)
  | None => None
  end.

(** The end positions of [min] to [max] iterations of [body].  Beyond
    [min] an iteration that consumes nothing reaches no new position and
    is dropped, as RepeatMatcher does. *)
Fixpoint repeatFrom (body : State -> list State) (fuel min : nat)
         (max : option nat) (st : State) : list State :=
  match fuel with
  | O => []
  | S fuel' =>
      match max with
      | Some O => [st]
      | _ =>
          match min with
          | S min' =>
              flat_map (repeatFrom body fuel' min' (predMax max)) (body st)
          | O =>
              st :: flat_map (repeatFrom body fuel' 0 (predMax max))
                             (filter (progress st) (body st))
          end
      end
  end.

(** The positions before [st], each with the code units back in place. *)
Fixpoint earlier (prev rest : str) : list State :=
  (prev, rest) ::
  match prev with
  | [] => []
  | x :: prev' => earlier prev' (x :: rest)
  end.

Definition samePosition (st st' : State) : bool :=
  List.length (snd st) =? List.length (snd st').

Definition wordBefore (st : State) : bool :=
  match fst st with
  | x :: _ => isWordChar x
  | [] => false
  end.

Definition wordAfter (st : State) : bool :=
  match snd st with
  | x :: _ => isWordChar x
  | [] => false
  end.

Definition guard (b : bool) (st : State) : list State :=
  if b then [st] else [].

Definition nonEmpty {A} (l : list A) : bool :=
  match l with
  | [] => false
  | _ :: _ => true
  end.

(** The positions at which a match of [r] that starts at [st] can end. *)
Fixpoint run (ignoreCase : bool) (r : Regex) (st : State) : list State :=
  match r with
  | Empty => [st]
  | Char c =>
      step (fun x => eqc (canonicalize ignoreCase c) (canonicalize ignoreCase x)) st
  | Dot => step (fun x => negb (isLineTerminator x)) st
  | Class negated items =>
      step (fun x => xorb negated (existsb (itemMatches ignoreCase x) items)) st
  | Seq r1 r2 => flat_map (run ignoreCase r2) (run ignoreCase r1 st)
  | Alt r1 r2 => run ignoreCase r1 st ++ run ignoreCase r2 st
  | Group r1 => run ignoreCase r1 st
  | Repeat r1 min max _ =>
      repeatFrom (run ignoreCase r1) (S (min + List.length (snd st))) min max st
  | AssertStart => guard (match fst st with [] => true | _ => false end) st
  | AssertEnd => guard (match snd st with [] => true | _ => false end) st
  | WordBoundary negated =>
      guard (xorb negated (xorb (wordBefore st) (wordAfter st))) st
  | Lookahead negated r1 =>
      guard (xorb negated (nonEmpty (run ignoreCase r1 st))) st
  | Lookbehind negated r1 =>
      guard (xorb negated
               (existsb (fun st0 => existsb (samePosition st) (run ignoreCase r1 st0))
                        (earlier (fst st) (snd st)))) st
  end.

(** Every position of the input, from its end back to its start. *)
Definition positions (input : str) : list State := earlier (rev input) [].

(** *** The RegExp object *)

Record RegExp : Type := { pattern : Regex; ignoreCase : bool }.

(** [regex.test(input)] for a regex without the [g] and [y] flags. *)
Definition test (re : RegExp) (input : str) : bool :=
  existsb (fun st => nonEmpty (run (ignoreCase re) (pattern re) st))
          (positions input).

Inductive Construction : Type :=
| Constructed (re : RegExp)
| ThrowsSyntaxError
| NotModelled.

(** [new RegExp(source, 'i')] *)
Definition newRegExp_i (source : str) : Construction :=
  match parsePattern source with
  | Compiled r => Constructed {| pattern := r; ignoreCase := true |}
  | SyntaxError => ThrowsSyntaxError
  | Unsupported => NotModelled
  end.

End RegExp.

(* ================================================================== *)
(** ** detectBrandMention                                               *)
(* ================================================================== *)

Module Detector.
Import JSString.

(** [{ mentioned, position }]; [None] is [null]. *)
Record DetectionResult : Type :=
  { mentioned : bool; position : option Z }.

(** How a call ends: with a value, with the SyntaxError of
    [new RegExp], or on a pattern outside the RegExp model. *)
Inductive Completion (A : Type) : Type :=
| Normal (a : A)
| Throws
| Unmodelled.
Arguments Normal {A} a.
Arguments Throws {A}.
Arguments Unmodelled {A}.

Definition notMentioned : DetectionResult :=
  {| mentioned := false; position := None |}.

Definition mentionedAt (p : Z) : DetectionResult :=
  {| mentioned := true; position := Some p |}.

(** [!s] for a string [s] *)
Definition isEmpty (s : str) : bool :=
  match s with
  | [] => true
  | _ :: _ => false
  end.

(** The separators of [/[.\n]/]. *)
Definition isSeparator (c : ascii) : bool :=
  eqc c "."%char || eqc c "010"%char.

(** [text.split(/[.\n]/)] *)
Definition segmentsOf (text : str) : list str := splitChars isSeparator text.

(** [for (let i = 0; i < segments.length; i++) if (hit(segments[i]))
    return i + 1], started at index [i]. *)
Fixpoint firstHit (hit : str -> bool) (segments : list str) (i : Z) : option Z :=
  match segments with
  | [] => None
  | segment :: rest =>
      if hit segment then Some (i + 1)%Z else firstHit hit rest (i + 1)%Z
  end.

(** The separator that joins the brand words: the nine code units
    [[\s\-\_]*]. *)
Definition looseSeparator : str := lit "[\s\-\_]*".

(** The inner loop of the partial-word pass, started at segment [j] with
    [charCount] code units counted so far. *)
Fixpoint owningSegment (segments : list str) (j charCount target : Z) : option Z :=
  match segments with
  | [] => None
  | segment :: rest =>
      let charCount' := (charCount + len segment)%Z in
      if (target <=? charCount')%Z then Some (j + 1)%Z
      else owningSegment rest (j + 1)%Z charCount' target
  end.

Definition fuzzyHit (word brand : str) : bool :=
  (3 <? len word)%Z && (3 <? len brand)%Z &&
  (includes word brand || includes brand word).

(** The loop over [words] of the partial-word pass. *)
Fixpoint partialPass (textLower brandLower : str) (segments words : list str)
  : option Z :=
  match words with
  | [] => None
  | w :: rest =>
      let word := stripNonAlnum w in
      let brand := stripNonAlnum brandLower in
      if fuzzyHit word brand then
        match owningSegment segments 0 0 (indexOf textLower word) with
        | Some p => Some p
        | None => partialPass textLower brandLower segments rest
        end
      else partialPass textLower brandLower segments rest
  end.

Definition brandLowerOf (brandName : str) : str := trim (toLowerCase brandName).

Definition brandPatternOf (brandLower : str) : str :=
  join looseSeparator (splitWhitespace brandLower).

Definition detectBrandMention (text brandName : str) : Completion DetectionResult :=
  if isEmpty text || isEmpty brandName then Normal notMentioned
  else
    let textLower := toLowerCase text in
    let brandLower := brandLowerOf brandName in
    let segments := segmentsOf text in
    match firstHit (fun segment => includes (toLowerCase segment) brandLower)
                   segments 0 with
    | Some p => Normal (mentionedAt p)
    | None =>
        match RegExp.newRegExp_i (brandPatternOf brandLower) with
        | RegExp.ThrowsSyntaxError => Throws
        | RegExp.NotModelled => Unmodelled
        | RegExp.Constructed regex =>
            match firstHit (RegExp.test regex) segments 0 with
            | Some p => Normal (mentionedAt p)
            | None =>
                match partialPass textLower brandLower segments
                                  (splitWhitespace textLower) with
                | Some p => Normal (mentionedAt p)
                | None => Normal notMentioned
                end
            end
        end
    end.

End Detector.

(* ================================================================== *)
(** ** getCannedResponse and the model loop                             *)
(* ================================================================== *)

Module Orchestrator.
Import JSString.

Definition getCannedResponse : str := lit
"Here are some popular options in the market:
1. Leading industry solutions
2. Well-established platforms
3. Innovative tools and services
4. Cost-effective alternatives
5. Enterprise-grade solutions

These represent various options available for your needs.".

Definition MODEL_OPTIONS : list str :=
  [lit "gemini-2.5-flash"; lit "gemini-2.5-pro"; lit "gemini-2.0-flash-exp"].

(** [MODEL_OPTIONS[0]]; [None] is [undefined]. *)
Definition MODEL_NAME_of (options : list str) : option str := hd_error options.

(** [response.text]: not a function, a function that throws, or a
    function that returns a string. *)
Inductive TextAccessor : Type :=
| NotAFunction
| TextThrows
| TextReturns (s : str).

(** [None] is an absent (or otherwise falsy) property. *)
Record Part : Type := { partText : option str }.
Record Content : Type := { parts : option (list Part) }.
Record Candidate : Type := { content : option Content }.
Record Response : Type :=
  { text : TextAccessor; candidates : option (list Candidate) }.

(** One call of the generation capability for one model:
    [getGenerativeModel], [generateContent] or [result.response] throws,
    or a response arrives. *)
Inductive Generation : Type :=
| GenerationFails
| Responds (r : Response).

(** The capability: what a call for [modelName] with [prompt] does. *)
Definition Capability : Type := str -> str -> Generation.

(** [!geminiResponse], for a variable that is [undefined] or a string *)
Definition isFalsy (g : option str) : bool :=
  match g with
  | None => true
  | Some [] => true
  | Some (_ :: _) => false
  end.

(** [!geminiResponse || geminiResponse.trim().length === 0] *)
Definition isBlank (g : option str) : bool :=
  match g with
  | None => true
  | Some s => isFalsy g || (len (trim s) =? 0)%Z
  end.

(** [part.text || ''] *)
Definition partOrEmpty (p : Part) : str :=
  match partText p with
  | Some s => s
  | None => []
  end.

(** The assignment from [response.text()]: made when [text] is a
    function that returns; otherwise the variable keeps its value. *)
Definition afterText (g : option str) (r : Response) : option str :=
  match text r with
  | TextReturns s => Some s
  | NotAFunction | TextThrows => g
  end.

(** The assignment from [response.candidates[0].content.parts], made
    when the variable is falsy and the parts are there. *)
Definition afterCandidates (g : option str) (r : Response) : option str :=
  if isFalsy g then
    match candidates r with
    | Some (candidate :: _) =>
        match content candidate with
        | Some c =>
            match parts c with
            | Some (p :: ps) => Some (List.concat (map partOrEmpty (p :: ps)))
            | _ => g
            end
        | None => g
        end
    | _ => g
    end
  else g.

(** [for (const modelName of options)], entered with [geminiResponse]
    holding [g].  [Some (text, modelName)] is the exit by [break], with
    [geminiResponse] and [modelUsed]; [None] is the exit with [success]
    still false. *)
Fixpoint tryModels (generate : Capability) (prompt : str)
         (g : option str) (options : list str) : option (str * str) :=
  match options with
  | [] => None
  | modelName :: rest =>
      match generate modelName prompt with
      | GenerationFails => tryModels generate prompt g rest
      | Responds response =>
          let g' := afterCandidates (afterText g response) response in
          match g' with
          | Some s =>
              if isBlank g' then tryModels generate prompt g' rest
              else Some (s, modelName)
          | None => tryModels generate prompt g' rest
          end
      end
  end.

(** The three variables after the inner [try]/[catch]. *)
Record GenerationOutcome : Type :=
  { geminiResponse : str;
    usedCannedResponse : bool;
    modelUsed : option str }.

Definition generateWith (generate : Capability) (options : list str)
           (prompt : str) : GenerationOutcome :=
  match tryModels generate prompt None options with
  | Some (s, modelName) =>
      {| geminiResponse := s;
         usedCannedResponse := false;
         modelUsed := Some modelName |}
  | None =>
      {| geminiResponse := getCannedResponse;
         usedCannedResponse := true;
         modelUsed := MODEL_NAME_of options |}
  end.

End Orchestrator.

(* ================================================================== *)
(** ** POST /api/check-brand                                            *)
(* ================================================================== *)

Module Handler.
Import JSString Detector Orchestrator.

(** [req.body] with fields that are strings; [None] is an absent field.
    The handler over any JSON value is in [Wire] below. *)
Record Body : Type := { prompt : option str; brandName : option str }.

Record CheckData : Type :=
  { data_prompt : str;
    data_brandName : str;
    data_mentioned : str;
    data_position : option Z;
    data_geminiResponse : str;
    data_usedCannedResponse : bool;
    data_errorOccurred : bool }.   (* the field is present and true *)

Inductive HttpResponse : Type :=
| Json400 (error : str)            (* { error, success: false } *)
| Json200 (data : CheckData).      (* { success: true, data } *)

(** What becomes of a request: the handler sends a response, the
    handler's promise rejects before it has sent one, or the brand is
    outside the RegExp model. *)
Inductive Result : Type :=
| Sends (r : HttpResponse)
| Rejects
| OutsideModel.

Definition yesNo (d : DetectionResult) : str :=
  if mentioned d then lit "Yes" else lit "No".

Definition positionOf (d : DetectionResult) : option Z :=
  if mentioned d then position d else None.

Definition payload (p b : str) (d : DetectionResult) (g : str)
           (canned error : bool) : HttpResponse :=
  Json200 {| data_prompt := p;
             data_brandName := b;
             data_mentioned := yesNo d;
             data_position := positionOf d;
             data_geminiResponse := g;
             data_usedCannedResponse := canned;
             data_errorOccurred := error |}.

(** The outer [catch (error)] block; [p] and [b] are [req.body.prompt]
    and [req.body.brandName].  An exception thrown here is caught by
    nothing. *)
Definition onServerError (p b : str) : Result :=
  let cannedResponse := getCannedResponse in
  match detectBrandMention cannedResponse b with
  | Normal detection => Sends (payload p b detection cannedResponse true true)
  | Throws => Rejects
  | Unmodelled => OutsideModel
  end.

(** [s.trim().length === 0] *)
Definition isBlankField (s : str) : bool := (len (trim s) =? 0)%Z.

(** The handler of [app.post('/api/check-brand')]: validation, the model
    loop with its own [try]/[catch], detection and the response; an
    exception of the detector leaves the [try] block for [onServerError].
    [res.json] is taken to succeed. *)
Definition checkBrand (generate : Capability) (options : list str)
           (body : Body) : Result :=
  match prompt body, brandName body with
  | Some p, Some b =>
      if isEmpty p || isEmpty b
      then Sends (Json400 (lit "Both prompt and brandName are required"))
      else if isBlankField p || isBlankField b
      then Sends (Json400 (lit "Prompt and brand name cannot be empty"))
      else
        let outcome := generateWith generate options p in
        match detectBrandMention (geminiResponse outcome) b with
        | Normal detection =>
            Sends (payload p b detection (geminiResponse outcome)
                           (usedCannedResponse outcome) false)
        | Throws => onServerError p b
        | Unmodelled => OutsideModel
        end
  | _, _ => Sends (Json400 (lit "Both prompt and brandName are required"))
  end.

End Handler.

(* ================================================================== *)
(** ** What the specification says, in its own words                    *)
(* ================================================================== *)

Module Stated.
Import JSString Detector Orchestrator.

(** Segment [k] (counted from 0) is the first segment of [text] that
    satisfies [P]. *)
Definition firstSegment (P : str -> Prop) (text : str) (k : nat) : Prop :=
  (exists segment, nth_error (segmentsOf text) k = Some segment /\ P segment) /\
  (forall j segment, j < k -> nth_error (segmentsOf text) j = Some segment ->
                     ~ P segment).

(** The lower-cased segment contains the lower-cased trimmed brand name. *)
Definition containsBrand (brandName segment : str) : Prop :=
  includes (toLowerCase segment) (brandLowerOf brandName) = true.

(** The brand's whitespace-tokenized words. *)
Definition brandWordsOf (brandName : str) : list str :=
  splitWhitespace (brandLowerOf brandName).

Definition sameIgnoringCase (a b : str) : Prop :=
  toLowerCase a = toLowerCase b.

(** [found] is the words in order, each in any casing, with zero or more
    separators between one word and the next. *)
Inductive wordsInOrder (sep : ascii -> bool) : list str -> str -> Prop :=
| wordsInOrder_last : forall w found,
    sameIgnoringCase found w ->
    wordsInOrder sep [w] found
| wordsInOrder_more : forall w words found gap rest,
    sameIgnoringCase found w ->
    forallb sep gap = true ->
    wordsInOrder sep words rest ->
    wordsInOrder sep (w :: words) (found ++ gap ++ rest).

Definition looselyContains (sep : ascii -> bool) (words : list str)
           (segment : str) : Prop :=
  exists before found after,
    segment = before ++ found ++ after /\ wordsInOrder sep words found.

(** Space, hyphen and underscore: the separators the specification
    names. *)
Definition isStatedSeparator (c : ascii) : bool :=
  eqc c " " || eqc c "-" || eqc c "_".

(** What the class [[\s\-\_]] matches: any whitespace, hyphen and
    underscore. *)
Definition isLooseSeparator (c : ascii) : bool :=
  isWhiteSpace c || eqc c "-" || eqc c "_".

(** SyntaxCharacter of the pattern grammar. *)
Definition isSyntaxCharacter (c : ascii) : bool :=
  existsb (eqc c) (lit "^$\.*+?()[]{}|").

Definition plain (s : str) : bool :=
  forallb (fun c => negb (isSyntaxCharacter c)) s.

(** The code units in the first [k] segments. *)
Definition cumulativeLength (segments : list str) (k : nat) : Z :=
  fold_right Z.add 0%Z (map len (firstn k segments)).

(** Segment [k] (counted from 0) is the first at which the cumulative
    length reaches [target]. *)
Definition reaches (segments : list str) (target : Z) (k : nat) : Prop :=
  k < List.length segments /\
  (target <= cumulativeLength segments (S k))%Z /\
  (forall i, i < k -> (cumulativeLength segments (S i) < target)%Z).

(** [w] is the first whitespace-delimited word of the lower-cased text
    that, stripped, and the stripped brand both exceed three code units
    with one containing the other. *)
Definition firstFuzzyWord (text brandName w : str) : Prop :=
  exists before after,
    splitWhitespace (toLowerCase text) = before ++ w :: after /\
    fuzzyHit (stripNonAlnum w) (stripNonAlnum (brandLowerOf brandName)) = true /\
    (forall u, In u before ->
       fuzzyHit (stripNonAlnum u) (stripNonAlnum (brandLowerOf brandName)) = false).

(** The text extracted from one response taken on its own: the text
    accessor first, then the parts of the first candidate where the
    accessor is absent, throws or returns the empty string (the loop's
    comment: "if text() failed or returned empty"). *)
Definition extractText (r : Response) : option str :=
  afterCandidates (afterText None r) r.

(** The candidate fails, or its own text is empty or only whitespace. *)
Definition failsOrBlank (g : Generation) : Prop :=
  match g with
  | GenerationFails => True
  | Responds r => isBlank (extractText r) = true
  end.

(** The candidate produces the non-empty text [s]. *)
Definition produces (g : Generation) (s : str) : Prop :=
  match g with
  | GenerationFails => False
  | Responds r => extractText r = Some s /\ isBlank (Some s) = false
  end.

(** The outcome of section 4.4: the first candidate that produces
    non-empty text, with its identifier; the canned text with no model
    when there is none. *)
Inductive outcome (generate : Capability) (prompt : str)
  : list str -> str -> option str -> bool -> Prop :=
| outcome_exhausted :
    outcome generate prompt [] getCannedResponse None true
| outcome_success : forall modelName rest s,
    produces (generate modelName prompt) s ->
    outcome generate prompt (modelName :: rest) s (Some modelName) false
| outcome_skip : forall modelName rest s m fallback,
    failsOrBlank (generate modelName prompt) ->
    outcome generate prompt rest s m fallback ->
    outcome generate prompt (modelName :: rest) s m fallback.

End Stated.

(* ================================================================== *)
(** ** The patterns that brand words without syntax characters give     *)
(* ================================================================== *)

Module Literal.
Import JSString RegExp.

(** The code units of [w] one after the other, then [tail]. *)
Fixpoint literal (w : str) (tail : Regex) : Regex :=
  match w with
  | [] => tail
  | c :: w' => Seq (Char c) (literal w' tail)
  end.

(** The tree of [[\s\-\_]]. *)
Definition looseClass : Regex :=
  Class false [CEsc Space; CChar "-"; CChar "_"].

(** The tree of a class of the three separators the specification
    names. *)
Definition statedClass : Regex :=
  Class false [CChar " "; CChar "-"; CChar "_"].

(** The words in order with any number of [gap] between them. *)
Fixpoint wordsRegex (gap : Regex) (words : list str) : Regex :=
  match words with
  | [] => Empty
  | w :: rest =>
      match rest with
      | [] => literal w Empty
      | _ :: _ => literal w (Seq (Repeat gap 0 None true) (wordsRegex gap rest))
      end
  end.

(** Where the rest of a pattern may start after a term without changing
    how the term is read: at its end, at a code unit that is no syntax
    character, or at an opening bracket. *)
Definition okStart (s : str) : bool :=
  match s with
  | [] => true
  | c :: _ => negb (Stated.isSyntaxCharacter c) || eqc c "["
  end.

End Literal.

(* ================================================================== *)
(** ** Scripted capabilities and sample inputs                          *)
(* ================================================================== *)

Module Sample.
Import JSString Orchestrator.

Fixpoint sameString (a b : str) : bool :=
  match a, b with
  | [], [] => true
  | x :: a', y :: b' => eqc x y && sameString a' b'
  | _, _ => false
  end.

(** A capability given by a table from model identifiers to what the
    call does; a model that is not in the table fails. *)
Fixpoint scripted (table : list (str * Generation)) (modelName prompt : str)
  : Generation :=
  match table with
  | [] => GenerationFails
  | (m, g) :: rest =>
      if sameString m modelName then g else scripted rest modelName prompt
  end.

(** A response whose [text()] returns [s] and that has no candidates. *)
Definition textResponse (s : str) : Generation :=
  Responds {| text := TextReturns s; candidates := None |}.

(** A response whose [text()] throws and whose first candidate holds
    the single part [s]. *)
Definition partsResponse (s : str) : Generation :=
  Responds {| text := TextThrows;
              candidates :=
                Some [{| content :=
                           Some {| parts := Some [{| partText := Some s |}] |} |}] |}.

(** A numbered list, as a model may answer, that ends with the brand. *)
Definition numberedList : str := lit
"Top CRM picks:
1. HubSpot
2. Zoho
3. Pipedrive
4. Freshsales
5. Insightly
6. Salesforce".

Definition tab : ascii := ascii_of_nat 9.

End Sample.

(* ================================================================== *)
(** ** The earlier server: one model, no emptiness test                 *)
(* ================================================================== *)

(** The server file with the single model [gemini-1.5-flash].  Its
    [detectBrandMention] and [getCannedResponse] are, line for line, the
    ones above; its handler differs in the inner [try] block. *)

Module Legacy.
Import JSString Detector Orchestrator Handler.

Definition MODEL_NAME : str := lit "gemini-1.5-flash".

(** The inner [try]/[catch]: [geminiResponse] and [usedCannedResponse]
    after it.  [response.text()] is called as it is: where [text] is not
    a function or throws, the [catch] takes the canned text; what it
    returns is kept, the empty string included. *)
Definition generateOnce (generate : Capability) (prompt : str) : str * bool :=
  match generate MODEL_NAME prompt with
  | GenerationFails => (getCannedResponse, true)
  | Responds response =>
      match text response with
      | TextReturns s => (s, false)
      | NotAFunction | TextThrows => (getCannedResponse, true)
      end
  end.

(** The handler of [app.post('/api/check-brand')] in that file. *)
Definition checkBrand (generate : Capability) (body : Body) : Result :=
  match prompt body, brandName body with
  | Some p, Some b =>
      if isEmpty p || isEmpty b
      then Sends (Json400 (lit "Both prompt and brandName are required"))
      else if isBlankField p || isBlankField b
      then Sends (Json400 (lit "Prompt and brand name cannot be empty"))
      else
        let (geminiResponse, usedCannedResponse) := generateOnce generate p in
        match detectBrandMention geminiResponse b with
        | Normal detection =>
            Sends (payload p b detection geminiResponse usedCannedResponse false)
        | Throws => onServerError p b
        | Unmodelled => OutsideModel
        end
  | _, _ => Sends (Json400 (lit "Both prompt and brandName are required"))
  end.

End Legacy.

(* ================================================================== *)
(** ** The page: form, result list and CSV rows                         *)
(* ================================================================== *)

(** [pages/index.tsx].  The component's state is a record; an event
    handler is a function from the state in which it was created to the
    state once it has finished.  [fetch] is a parameter: what posting a
    prompt and a brand name gives back.  [Papa.unparse] and the download
    link are outside: [downloadCSV] is modelled up to the rows it hands
    over. *)

Module Frontend.
Import JSString Detector Handler.

Record State : Type :=
  { prompt : str;
    brandName : str;
    results : list CheckData;
    loading : bool;
    error : str }.

(** The body of a reply once parsed, [await response.json()]; [None] is
    an absent field. *)
Record Reply : Type :=
  { success : bool; data : option CheckData; replyError : option str }.

(** Something in the [try] block throws ([fetch] or [response.json()]
    rejects), or a reply arrives. *)
Inductive Fetched : Type :=
| FetchFails
| Arrives (reply : Reply).

(** What [res.json] of the server puts on the wire, as the page parses
    it. *)
Definition replyOf (r : HttpResponse) : Reply :=
  match r with
  | Json400 e => {| success := false; data := None; replyError := Some e |}
  | Json200 d => {| success := true; data := Some d; replyError := None |}
  end.

(** [data.error || 'An error occurred while processing your request'] *)
Definition errorOrDefault (e : option str) : str :=
  match e with
  | Some (c :: e') => c :: e'
  | _ => lit "An error occurred while processing your request"
  end.

Definition handleSubmit (post : str -> str -> Fetched) (st : State) : State :=
  if isEmpty (trim (prompt st)) || isEmpty (trim (brandName st)) then
    {| prompt := prompt st; brandName := brandName st; results := results st;
       loading := loading st;
       error := lit "Please fill in both fields" |}
  else
    match post (prompt st) (brandName st) with
    | Arrives reply =>
        match success reply, data reply with
        | true, Some d =>
            {| prompt := prompt st; brandName := brandName st;
               results := d :: results st;
               loading := false;
               error := [] |}
        | _, _ =>
            {| prompt := prompt st; brandName := brandName st;
               results := results st;
               loading := false;
               error := errorOrDefault (replyError reply) |}
        end
    | FetchFails =>
        {| prompt := prompt st; brandName := brandName st;
           results := results st;
           loading := false;
           error := lit "Failed to connect to the server. Please try again." |}
    end.

(** A CSV cell: a number or a string. *)
Inductive Cell : Type :=
| Number (n : Z)
| Text (s : str).

(** One object of [csvData]; the keys are 'Prompt', 'Brand Name',
    'Mentioned' and 'Position'. *)
Record CsvRow : Type :=
  { Prompt : str; Brand_Name : str; Mentioned : str; Position : Cell }.

(** [result.position || 'N/A'] *)
Definition positionCell (position : option Z) : Cell :=
  match position with
  | Some n => if (n =? 0)%Z then Text (lit "N/A") else Number n
  | None => Text (lit "N/A")
  end.

Definition rowOf (result : CheckData) : CsvRow :=
  {| Prompt := data_prompt result;
     Brand_Name := data_brandName result;
     Mentioned := data_mentioned result;
     Position := positionCell (data_position result) |}.

Definition csvData (rs : list CheckData) : list CsvRow := map rowOf rs.

(** [downloadCSV]: the state after it, and the rows given to
    [Papa.unparse] when a file is made. *)
Definition downloadCSV (st : State) : State * option (list CsvRow) :=
  match results st with
  | [] =>
      ({| prompt := prompt st; brandName := brandName st; results := results st;
          loading := loading st;
          error := lit "No results to download" |}, None)
  | _ :: _ => (st, Some (csvData (results st)))
  end.

Definition clearResults (st : State) : State :=
  {| prompt := prompt st; brandName := brandName st; results := [];
     loading := loading st;
     error := [] |}.

(** The request body that [JSON.stringify({ prompt, brandName })] gives
    the server. *)
Definition bodyOf (st : State) : Body :=
  {| Handler.prompt := Some (prompt st); Handler.brandName := Some (brandName st) |}.

End Frontend.

(* ================================================================== *)
(** ** The request body as it arrives                                   *)
(* ================================================================== *)

(** [express.json()] has parsed the body before the handler runs, so a
    field of [req.body] is any JSON value and not only a string.  This
    module is the handler of [server.js] over such fields: the validation
    tests them for truthiness, [prompt.trim()] and [brandName.trim()] throw
    a TypeError on a value that is not a string, and the outer [catch]
    hands [req.body.brandName] to the detector as it is.  [req.body] itself
    is taken to be an object or an array (what the parser delivers for a
    JSON body, and the empty object without one). *)

Module Wire.
Import JSString Detector Orchestrator.

(** A field of [req.body]. *)
Inductive Value : Type :=
| VUndefined                 (* the body has no such field *)
| VNull
| VBoolean (b : bool)
| VNumber (zero : bool)      (* a number; [zero] tells whether it is 0 *)
| VString (s : str)
| VCompound.                 (* an array or an object *)

(** [!v] *)
Definition isFalsy (v : Value) : bool :=
  match v with
  | VUndefined | VNull => true
  | VBoolean b => negb b
  | VNumber zero => zero
  | VString s => isEmpty s
  | VCompound => false
  end.

(** [detectBrandMention(text, brandName)] with any value as brand name:
    the guard tests its truthiness, and past the guard
    [brandName.toLowerCase()] throws a TypeError on a value that is not a
    string. *)
Definition detectBrandMention (text : str) (brandName : Value)
  : Completion DetectionResult :=
  if isEmpty text || isFalsy brandName then Normal notMentioned
  else match brandName with
       | VString b => Detector.detectBrandMention text b
       | _ => Throws
       end.

(** The [data] of a 200 answer; [prompt] and [brandName] are echoed as
    they came. *)
Record Data : Type :=
  { sent_prompt : Value;
    sent_brandName : Value;
    sent_mentioned : str;
    sent_position : option Z;
    sent_geminiResponse : str;
    sent_usedCannedResponse : bool;
    sent_errorOccurred : bool }.   (* the field is present and true *)

Inductive Answer : Type :=
| Status400 (error : str)          (* { error, success: false } *)
| Status200 (data : Data).         (* { success: true, data } *)

(** What becomes of a request: an answer is sent, the handler's promise
    rejects before one is sent, or the brand is outside the RegExp
    model. *)
Inductive Outcome : Type :=
| Answers (a : Answer)
| Unanswered
| Beyond.

Definition respond (prompt brandName : Value) (d : DetectionResult) (g : str)
           (canned error : bool) : Outcome :=
  Answers (Status200 {| sent_prompt := prompt;
                        sent_brandName := brandName;
                        sent_mentioned := Handler.yesNo d;
                        sent_position := Handler.positionOf d;
                        sent_geminiResponse := g;
                        sent_usedCannedResponse := canned;
                        sent_errorOccurred := error |}).

(** The outer [catch (error)] block. *)
Definition onServerError (prompt brandName : Value) : Outcome :=
  let cannedResponse := getCannedResponse in
  match detectBrandMention cannedResponse brandName with
  | Normal detection => respond prompt brandName detection cannedResponse true true
  | Throws => Unanswered
  | Unmodelled => Beyond
  end.

(** The handler of [app.post('/api/check-brand')].  [prompt.trim()] and
    [brandName.trim()] throw a TypeError on a value that is not a string,
    which the outer [catch] receives; in
    [prompt.trim().length === 0 || brandName.trim().length === 0] the
    right operand is evaluated only when the left one is false. *)
Definition checkBrand (generate : Capability) (options : list str)
           (prompt brandName : Value) : Outcome :=
  if isFalsy prompt || isFalsy brandName
  then Answers (Status400 (lit "Both prompt and brandName are required"))
  else
    match prompt with
    | VString p =>
        if Handler.isBlankField p
        then Answers (Status400 (lit "Prompt and brand name cannot be empty"))
        else
          match brandName with
          | VString b =>
              if Handler.isBlankField b
              then Answers (Status400 (lit "Prompt and brand name cannot be empty"))
              else
                let outcome := generateWith generate options p in
                match detectBrandMention (geminiResponse outcome) brandName with
                | Normal detection =>
                    respond prompt brandName detection (geminiResponse outcome)
                            (usedCannedResponse outcome) false
                | Throws => onServerError prompt brandName
                | Unmodelled => Beyond
                end
          | _ => onServerError prompt brandName
          end
    | _ => onServerError prompt brandName
    end.

(** The requests that the validation refuses: a field is falsy, or
    [prompt] is a string of whitespace, or [prompt] is a string and
    [brandName] a string of whitespace. *)
Definition refused (prompt brandName : Value) : Prop :=
  isFalsy prompt = true \/ isFalsy brandName = true \/
  (exists p, prompt = VString p /\ Handler.isBlankField p = true) \/
  (exists p b, prompt = VString p /\ brandName = VString b /\
               Handler.isBlankField b = true).

(** The bodies and the results of [Handler], as they are here. *)
Definition ofField (f : option str) : Value :=
  match f with
  | Some s => VString s
  | None => VUndefined
  end.

Definition ofResponse (r : Handler.HttpResponse) : Answer :=
  match r with
  | Handler.Json400 e => Status400 e
  | Handler.Json200 d =>
      Status200 {| sent_prompt := VString (Handler.data_prompt d);
                   sent_brandName := VString (Handler.data_brandName d);
                   sent_mentioned := Handler.data_mentioned d;
                   sent_position := Handler.data_position d;
                   sent_geminiResponse := Handler.data_geminiResponse d;
                   sent_usedCannedResponse := Handler.data_usedCannedResponse d;
                   sent_errorOccurred := Handler.data_errorOccurred d |}
  end.

Definition ofResult (r : Handler.Result) : Outcome :=
  match r with
  | Handler.Sends a => Answers (ofResponse a)
  | Handler.Rejects => Unanswered
  | Handler.OutsideModel => Beyond
  end.

End Wire.

(* ================================================================== *)
(** ** Case, as the matcher and as the lower-casing see it              *)
(* ================================================================== *)

Module Folding.
Import JSString RegExp.

(** The comparison of a code unit [x] of the input with a pattern
    character [c] under the [i] flag: equal once canonicalized. *)
Definition sameUnderI (x c : ascii) : Prop :=
  eqc (canonicalize true c) (canonicalize true x) = true.

(** [found] is [w] code unit by code unit, as the [i] flag compares. *)
Definition matchesWord (found w : str) : Prop := Forall2 sameUnderI found w.

(** [found] is the words in order, each matched as the [i] flag compares,
    with zero or more separators between one word and the next. *)
Inductive wordsMatched (sep : ascii -> bool) : list str -> str -> Prop :=
| wordsMatched_last : forall w found,
    matchesWord found w ->
    wordsMatched sep [w] found
| wordsMatched_more : forall w words found gap rest,
    matchesWord found w ->
    forallb sep gap = true ->
    wordsMatched sep words rest ->
    wordsMatched sep (w :: words) (found ++ gap ++ rest).

Definition containsMatch (sep : ascii -> bool) (words : list str)
           (segment : str) : Prop :=
  exists before found after,
    segment = before ++ found ++ after /\ wordsMatched sep words found.

(** Two code units that are equal, or the capital and the small form of
    one letter. *)
Definition sameLetter (a b : ascii) : Prop := lowerChar a = lowerChar b.

(** Two texts of one length that differ in the case of letters only. *)
Definition sameUpToCase (text text' : str) : Prop := Forall2 sameLetter text text'.

End Folding.

(* ================================================================== *)
(** ** Facts about the string operations                                *)
(* ================================================================== *)

Import JSString Detector.

Lemma includes_nil (s : str) : includes s [] = true.
Proof. destruct s; reflexivity. Qed.

Lemma splitChars_not_nil (sep : ascii -> bool) (s : str) :
  splitChars sep s <> [].
Proof.
  induction s as [|c s IH]; simpl; [discriminate|].
  destruct (sep c); [discriminate|].
  destruct (splitChars sep s); discriminate.
Qed.

Lemma lowerChar_whitespace (c : ascii) :
  isWhiteSpace c = true -> lowerChar c = c.
Proof.
  destruct c as [[] [] [] [] [] [] [] []]; vm_compute; congruence.
Qed.

Lemma lowerChar_keeps_whitespace (c : ascii) :
  isWhiteSpace (lowerChar c) = isWhiteSpace c.
Proof. destruct c as [[] [] [] [] [] [] [] []]; reflexivity. Qed.

Lemma trimStart_whitespace (s : str) :
  forallb isWhiteSpace s = true -> trimStart s = [].
Proof.
  induction s as [|c s IH]; simpl; [reflexivity|].
  intros H. apply andb_true_iff in H as [Hc Hs]. rewrite Hc. auto.
Qed.

Lemma brandLowerOf_whitespace (brandName : str) :
  forallb isWhiteSpace brandName = true -> brandLowerOf brandName = [].
Proof.
  intros H. unfold brandLowerOf, trim.
  rewrite trimStart_whitespace; [reflexivity|].
  unfold toLowerCase. rewrite forallb_forall in *.
  intros c Hc. apply in_map_iff in Hc as [x [<- Hx]].
  rewrite lowerChar_keeps_whitespace. auto.
Qed.

(** *** The position loops *)

Lemma firstHit_above (hit : str -> bool) (segments : list str) :
  forall i p, firstHit hit segments i = Some p -> (i < p)%Z.
Proof.
  induction segments as [|s segments IH]; simpl; intros i p H; [discriminate|].
  destruct (hit s).
  - inversion H. lia.
  - apply IH in H. lia.
Qed.

Lemma owningSegment_above (segments : list str) :
  forall j n target p, owningSegment segments j n target = Some p -> (j < p)%Z.
Proof.
  induction segments as [|s segments IH]; simpl; intros j n target p H; [discriminate|].
  destruct (target <=? n + len s)%Z.
  - inversion H. lia.
  - apply IH in H. lia.
Qed.

Lemma partialPass_above (textLower brandLower : str) (segments words : list str) :
  forall p, partialPass textLower brandLower segments words = Some p -> (0 < p)%Z.
Proof.
  induction words as [|w words IH]; simpl; intros p H; [discriminate|].
  destruct (fuzzyHit _ _); [|auto].
  destruct (owningSegment _ _ _ _) eqn:E; [|auto].
  inversion H; subst. apply owningSegment_above in E. lia.
Qed.

(** [firstHit] finds the first index at which [hit] holds. *)
Lemma firstHit_first (hit : str -> bool) (segments : list str) :
  forall k i segment,
    nth_error segments k = Some segment -> hit segment = true ->
    (forall j s, j < k -> nth_error segments j = Some s -> hit s = false) ->
    firstHit hit segments i = Some (i + Z.of_nat k + 1)%Z.
Proof.
  induction segments as [|s segments IH]; intros k i segment Hk Hhit Hbefore.
  - destruct k; discriminate.
  - destruct k as [|k]; simpl in *.
    + inversion Hk; subst. rewrite Hhit. f_equal. lia.
    + rewrite (Hbefore 0 s) by (simpl; auto; lia).
      rewrite (IH k (i + 1)%Z segment Hk Hhit).
      * f_equal. lia.
      * intros j s' Hj Hs'. apply (Hbefore (S j) s'); [lia|exact Hs'].
Qed.

Lemma firstHit_none (hit : str -> bool) (segments : list str) :
  forall i, firstHit hit segments i = None <->
            (forall s, In s segments -> hit s = false).
Proof.
  induction segments as [|s segments IH]; simpl; intros i.
  - split; [intros _ s []|reflexivity].
  - destruct (hit s) eqn:E.
    + split; [discriminate|]. intros H. rewrite (H s) in E by auto. discriminate.
    + rewrite IH. split.
      * intros H s' [<-|Hin]; auto.
      * intros H s' Hin. auto.
Qed.


(* ================================================================== *)
(** ** The detector: guard, exact pass, result invariant                *)
(* ================================================================== *)

Import Stated.

Lemma isEmpty_false (s : str) : s <> [] -> isEmpty s = false.
Proof. destruct s; [congruence|reflexivity]. Qed.

(** The detector past its guard, as the three passes. *)
Lemma detect_passes (text brandName : str) :
  text <> [] -> brandName <> [] ->
  detectBrandMention text brandName =
  match firstHit (fun segment => includes (toLowerCase segment) (brandLowerOf brandName))
                 (segmentsOf text) 0 with
  | Some p => Normal (mentionedAt p)
  | None =>
      match RegExp.newRegExp_i (brandPatternOf (brandLowerOf brandName)) with
      | RegExp.ThrowsSyntaxError => Throws
      | RegExp.NotModelled => Unmodelled
      | RegExp.Constructed regex =>
          match firstHit (RegExp.test regex) (segmentsOf text) 0 with
          | Some p => Normal (mentionedAt p)
          | None =>
              match partialPass (toLowerCase text) (brandLowerOf brandName)
                                (segmentsOf text)
                                (splitWhitespace (toLowerCase text)) with
              | Some p => Normal (mentionedAt p)
              | None => Normal notMentioned
              end
          end
      end
  end.
Proof.
  intros Ht Hb. unfold detectBrandMention.
  rewrite (isEmpty_false _ Ht), (isEmpty_false _ Hb). reflexivity.
Qed.

(** The detector throws exactly when the exact pass misses and the
    pattern built from the brand words is not a valid pattern. *)
Lemma detect_throws_iff (text brandName : str) :
  detectBrandMention text brandName = Throws <->
  text <> [] /\ brandName <> [] /\
  (forall s, In s (segmentsOf text) -> ~ containsBrand brandName s) /\
  RegExp.newRegExp_i (brandPatternOf (brandLowerOf brandName)) = RegExp.ThrowsSyntaxError.
Proof.
  split.
  - intros H.
    destruct text as [|t text]; [discriminate|].
    destruct brandName as [|b brandName]; [destruct (t :: text); discriminate|].
    rewrite detect_passes in H by discriminate.
    destruct (firstHit _ _ _) eqn:E1; [discriminate|].
    rewrite firstHit_none in E1.
    repeat split; try discriminate.
    + intros s Hs Hc. unfold containsBrand in Hc. rewrite (E1 s Hs) in Hc. discriminate.
    + destruct (RegExp.newRegExp_i _) as [re| |]; try discriminate; [|reflexivity].
      destruct (firstHit (RegExp.test re) _ _); [discriminate|].
      destruct (partialPass _ _ _ _); discriminate.
  - intros (Ht & Hb & Hmiss & Hre).
    rewrite detect_passes by assumption.
    replace (firstHit _ _ _) with (@None Z).
    + rewrite Hre. reflexivity.
    + symmetry. apply firstHit_none. intros s Hs.
      specialize (Hmiss s Hs). unfold containsBrand in Hmiss.
      destruct (includes _ _); [congruence|reflexivity].
Qed.

(** C9: with an empty brand name, and with an empty text, the detector
    returns [{mentioned: false, position: null}]; the guard answers before
    any pass runs, so nothing can throw, whatever the other argument is. *)
Theorem detect_empty_argument :
  forall text brandName : str,
    detectBrandMention text [] = Normal notMentioned /\
    detectBrandMention [] brandName = Normal notMentioned.
Proof.
  intros text brandName. split.
  - unfold detectBrandMention. destruct text; reflexivity.
  - reflexivity.
Qed.

(** C10: a brand name that is non-empty but all whitespace trims to the
    empty string, which the first segment contains: for every non-empty
    text the result is [{mentioned: true, position: 1}]. *)
Theorem detect_whitespace_brand :
  forall text brandName : str,
    text <> [] -> brandName <> [] ->
    forallb isWhiteSpace brandName = true ->
    detectBrandMention text brandName = Normal (mentionedAt 1).
Proof.
  intros text brandName Ht Hb Hws.
  rewrite detect_passes by assumption.
  rewrite (brandLowerOf_whitespace _ Hws).
  destruct (segmentsOf text) as [|s segments] eqn:E.
  - exfalso. exact (splitChars_not_nil _ _ E).
  - simpl. rewrite includes_nil. reflexivity.
Qed.

Lemma detect_whitespace_brand_witness :
  lit "abc" <> [] /\ lit "   " <> [] /\
  forallb isWhiteSpace (lit "   ") = true /\
  detectBrandMention (lit "abc") (lit "   ") = Normal (mentionedAt 1).
Proof.
  assert (H1 : lit "abc" <> []) by discriminate.
  assert (H2 : lit "   " <> []) by discriminate.
  assert (H3 : forallb isWhiteSpace (lit "   ") = true) by reflexivity.
  exact (conj H1 (conj H2 (conj H3 (detect_whitespace_brand _ _ H1 H2 H3)))).
Defined.

(** C6: every result the detector returns has [position] null exactly
    when [mentioned] is false, and a positive integer when [mentioned] is
    true. *)
Theorem detection_result_invariant :
  forall (text brandName : str) (r : DetectionResult),
    detectBrandMention text brandName = Normal r ->
    (position r = None <-> mentioned r = false) /\
    (mentioned r = true -> exists p, position r = Some p /\ (0 < p)%Z).
Proof.
  intros text brandName r H.
  assert (Hr : r = notMentioned \/ exists p, r = mentionedAt p /\ (0 < p)%Z).
  { destruct text as [|t text]; [inversion H; auto|].
    destruct brandName as [|b brandName]; [inversion H; auto|].
    rewrite detect_passes in H by discriminate.
    destruct (firstHit _ _ _) eqn:E1.
    { inversion H. right. eexists; split; [reflexivity|].
      apply firstHit_above in E1. lia. }
    destruct (RegExp.newRegExp_i _) as [re| |]; try discriminate.
    destruct (firstHit (RegExp.test re) _ _) eqn:E2.
    { inversion H. right. eexists; split; [reflexivity|].
      apply firstHit_above in E2. lia. }
    destruct (partialPass _ _ _ _) eqn:E3.
    { inversion H. right. eexists; split; [reflexivity|].
      apply partialPass_above in E3. exact E3. }
    inversion H. auto. }
  destruct Hr as [->|[p [-> Hp]]]; simpl.
  - split; [tauto|discriminate].
  - split; [split; discriminate|]. intros _. exists p. auto.
Qed.

Lemma detection_result_invariant_witness :
  detectBrandMention (lit "We recommend Acme-Corp for this.") (lit "Acme Corp")
    = Normal (mentionedAt 1) /\
  (position (mentionedAt 1) = None <-> mentioned (mentionedAt 1) = false) /\
  (mentioned (mentionedAt 1) = true ->
   exists p, position (mentionedAt 1) = Some p /\ (0 < p)%Z).
Proof.
  assert (H : detectBrandMention (lit "We recommend Acme-Corp for this.")
                                 (lit "Acme Corp") = Normal (mentionedAt 1))
    by (vm_compute; reflexivity).
  exact (conj H (detection_result_invariant _ _ _ H)).
Defined.

(** C5 as stated fails at the empty brand name: the first segment
    contains the empty string, yet the guard answers "not mentioned". *)
Lemma exact_pass_empty_brand_counterexample :
  lit "abc" <> [] /\
  firstSegment (containsBrand []) (lit "abc") 0 /\
  detectBrandMention (lit "abc") [] = Normal notMentioned /\
  Normal notMentioned <> Normal (mentionedAt (Z.of_nat 0 + 1)).
Proof.
  split; [discriminate|]. split; [|split; [reflexivity|discriminate]].
  split.
  - exists (lit "abc"). split; reflexivity.
  - intros j segment Hj. lia.
Qed.

(** C5, amended: for every non-empty text and every non-empty brand name,
    if segment [k] is the first segment whose lower-cased text contains
    the lower-cased trimmed brand name, the detector returns
    [{mentioned: true, position: k + 1}]. *)
Theorem exact_pass_first_segment :
  forall (text brandName : str) (k : nat),
    text <> [] -> brandName <> [] ->
    firstSegment (containsBrand brandName) text k ->
    detectBrandMention text brandName = Normal (mentionedAt (Z.of_nat k + 1)).
Proof.
  intros text brandName k Ht Hb [[segment [Hk Hhit]] Hfirst].
  rewrite detect_passes by assumption.
  erewrite firstHit_first; [reflexivity|exact Hk|exact Hhit|].
  intros j s Hj Hs. specialize (Hfirst j s Hj Hs). unfold containsBrand in Hfirst.
  destruct (includes _ _); [congruence|reflexivity].
Qed.

Lemma exact_pass_first_segment_witness :
  lit "Salesforce is a leading CRM. Others include HubSpot." <> [] /\
  lit "HubSpot" <> [] /\
  firstSegment (containsBrand (lit "HubSpot"))
               (lit "Salesforce is a leading CRM. Others include HubSpot.") 1 /\
  detectBrandMention (lit "Salesforce is a leading CRM. Others include HubSpot.")
                     (lit "HubSpot") = Normal (mentionedAt (Z.of_nat 1 + 1)).
Proof.
  assert (H1 : lit "Salesforce is a leading CRM. Others include HubSpot." <> [])
    by discriminate.
  assert (H2 : lit "HubSpot" <> []) by discriminate.
  assert (H3 : firstSegment (containsBrand (lit "HubSpot"))
                 (lit "Salesforce is a leading CRM. Others include HubSpot.") 1).
  { split.
    - exists (lit " Others include HubSpot"). split; reflexivity.
    - intros j segment Hj Hs. destruct j as [|j]; [|lia].
      inversion Hs; subst. unfold containsBrand. vm_compute. discriminate. }
  exact (conj H1 (conj H2 (conj H3 (exact_pass_first_segment _ _ _ H1 H2 H3)))).
Defined.

(** C1: the brand name "C++" against a text that does not contain it.
    The exact pass misses, the pattern [c++] is not a valid pattern, and
    [new RegExp] throws a SyntaxError out of the detector. *)
Theorem detect_throws_on_invalid_pattern :
  lit "I like Java." <> [] /\ lit "C++" <> [] /\
  brandPatternOf (brandLowerOf (lit "C++")) = lit "c++" /\
  RegExp.newRegExp_i (lit "c++") = RegExp.ThrowsSyntaxError /\
  detectBrandMention (lit "I like Java.") (lit "C++") = Throws.
Proof. repeat split; try discriminate; vm_compute; reflexivity. Qed.

(** C2: a numbered list that ends with "Salesforce", and the brand
    "Salesforce CRM".  The exact and the loose pass miss; the word
    [salesforce] and the stripped brand [salesforcecrm] both exceed three
    code units and the brand contains the word.  The word starts at index
    77, but the segments hold only 75 code units in all, the twelve
    separators not being counted: the inner loop ends without returning
    and the detector answers "not mentioned". *)
Theorem partial_pass_falls_through :
  let text := Sample.numberedList in
  let brandName := lit "Salesforce CRM" in
  let word := lit "salesforce" in
  let brand := stripNonAlnum (brandLowerOf brandName) in
  (forall s, In s (segmentsOf text) -> ~ containsBrand brandName s) /\
  match RegExp.newRegExp_i (brandPatternOf (brandLowerOf brandName)) with
  | RegExp.Constructed regex =>
      firstHit (RegExp.test regex) (segmentsOf text) 0 = None
  | _ => False
  end /\
  In word (map stripNonAlnum (splitWhitespace (toLowerCase text))) /\
  (3 < len word)%Z /\ (3 < len brand)%Z /\ includes brand word = true /\
  indexOf (toLowerCase text) word = 77%Z /\
  fold_right Z.add 0%Z (map len (segmentsOf text)) = 75%Z /\
  owningSegment (segmentsOf text) 0 0 77 = None /\
  detectBrandMention text brandName = Normal notMentioned.
Proof.
  cbv zeta. split; [|split; [|split]].
  - assert (H : firstHit (fun segment => includes (toLowerCase segment)
                                            (brandLowerOf (lit "Salesforce CRM")))
                         (segmentsOf Sample.numberedList) 0 = None)
      by (vm_compute; reflexivity).
    rewrite firstHit_none in H. intros s Hs Hc. unfold containsBrand in Hc.
    rewrite (H s Hs) in Hc. discriminate.
  - vm_compute. reflexivity.
  - vm_compute. do 14 right. left. reflexivity.
  - repeat split; vm_compute; reflexivity.
Qed.

(* ================================================================== *)
(** ** The model loop                                                   *)
(* ================================================================== *)

Import Orchestrator.

Lemma isFalsy_isBlank (g : option str) : isFalsy g = true -> isBlank g = true.
Proof. destruct g as [[|c s]|]; simpl; congruence. Qed.

(** With a falsy variable the two assignments give what the response
    gives on its own, or leave the variable falsy where the response
    gives nothing. *)
Lemma extraction_from_falsy (g : option str) (r : Response) :
  isFalsy g = true ->
  afterCandidates (afterText g r) r = extractText r \/
  (isFalsy (afterCandidates (afterText g r) r) = true /\
   isFalsy (extractText r) = true).
Proof.
  intros Hg. unfold extractText, afterText.
  destruct (text r); auto; unfold afterCandidates; rewrite Hg; simpl;
    destruct (candidates r) as [[|candidate ?]|]; auto;
    destruct (content candidate) as [c|]; auto;
    destruct (parts c) as [[|? ?]|]; auto.
Qed.

(** With a blank variable, a response that is blank on its own leaves
    the variable blank. *)
Lemma extraction_stays_blank (g : option str) (r : Response) :
  isBlank g = true -> isBlank (extractText r) = true ->
  isBlank (afterCandidates (afterText g r) r) = true.
Proof.
  intros Hg Hr. unfold extractText in Hr. unfold afterText in *.
  destruct (text r); auto.
  - unfold afterCandidates in *. simpl in Hr.
    destruct (isFalsy g) eqn:Ef; [|exact Hg].
    destruct (candidates r) as [[|candidate ?]|]; auto.
    destruct (content candidate) as [c|]; auto.
    destruct (parts c) as [[|? ?]|]; auto.
  - unfold afterCandidates in *. simpl in Hr.
    destruct (isFalsy g) eqn:Ef; [|exact Hg].
    destruct (candidates r) as [[|candidate ?]|]; auto.
    destruct (content candidate) as [c|]; auto.
    destruct (parts c) as [[|? ?]|]; auto.
Qed.

(** When every candidate fails or is blank on its own, the loop ends
    with [success] false, whatever the variable held on entry. *)
Lemma tryModels_all_blank (generate : Capability) (prompt : str) (options : list str) :
  (forall m, In m options -> failsOrBlank (generate m prompt)) ->
  forall g, isBlank g = true -> tryModels generate prompt g options = None.
Proof.
  induction options as [|m options IH]; intros Hall g Hg; [reflexivity|].
  simpl. pose proof (Hall m (or_introl eq_refl)) as Hm.
  assert (Hrest : forall m', In m' options -> failsOrBlank (generate m' prompt))
    by (intros m' Hin; apply Hall; right; exact Hin).
  destruct (generate m prompt) as [|r]; [auto|].
  simpl in Hm. pose proof (extraction_stays_blank g r Hg Hm) as Hb.
  destruct (afterCandidates (afterText g r) r) as [s|] eqn:E.
  - rewrite Hb. apply IH; auto.
  - apply IH; auto.
Qed.

(** A successful exit names one of the candidates. *)
Lemma tryModels_names_candidate (generate : Capability) (prompt : str)
      (options : list str) :
  forall g s m, tryModels generate prompt g options = Some (s, m) -> In m options.
Proof.
  induction options as [|m0 options IH]; simpl; intros g s m H; [discriminate|].
  destruct (generate m0 prompt) as [|r].
  - right. eapply IH. exact H.
  - destruct (afterCandidates (afterText g r) r) as [s'|].
    + destruct (isBlank (Some s')).
      * right. eapply IH. exact H.
      * inversion H. left. reflexivity.
    + right. eapply IH. exact H.
Qed.

(** Where no response carries text that is non-empty yet all whitespace,
    the variable is falsy whenever a candidate is tried, and the loop
    does what section 4.4 says. *)
Lemma tryModels_meets_stated (generate : Capability) (prompt : str)
      (options : list str) :
  (forall m r, In m options -> generate m prompt = Responds r ->
               isBlank (extractText r) = true -> isFalsy (extractText r) = true) ->
  forall g, isFalsy g = true ->
    match tryModels generate prompt g options with
    | Some (s, m) => outcome generate prompt options s (Some m) false
    | None => outcome generate prompt options getCannedResponse None true
    end.
Proof.
  induction options as [|m options IH]; intros Hclean g Hg; simpl.
  - constructor.
  - assert (Hrest : forall m' r, In m' options -> generate m' prompt = Responds r ->
                      isBlank (extractText r) = true -> isFalsy (extractText r) = true)
      by (intros m' r Hin; apply Hclean; right; exact Hin).
    destruct (generate m prompt) as [|r] eqn:Eg.
    + specialize (IH Hrest g Hg).
      destruct (tryModels generate prompt g options) as [[s m']|];
        apply outcome_skip; try exact IH; rewrite Eg; exact I.
    + pose proof (Hclean m r (or_introl eq_refl) Eg) as Hr.
      destruct (extraction_from_falsy g r Hg) as [E|[Ef Efr]].
      * rewrite E. destruct (extractText r) as [s|] eqn:Ex.
        -- destruct (isBlank (Some s)) eqn:Eb.
           ++ specialize (IH Hrest (Some s) (Hr eq_refl)).
              destruct (tryModels generate prompt (Some s) options) as [[s' m']|];
                apply outcome_skip; try exact IH; rewrite Eg; simpl; rewrite Ex; exact Eb.
           ++ apply outcome_success. rewrite Eg. simpl. auto.
        -- specialize (IH Hrest None eq_refl).
           destruct (tryModels generate prompt None options) as [[s' m']|];
             apply outcome_skip; try exact IH; rewrite Eg; simpl; rewrite Ex; reflexivity.
      * pose proof (isFalsy_isBlank _ Ef) as Eb.
        pose proof (isFalsy_isBlank _ Efr) as Ebr.
        destruct (afterCandidates (afterText g r) r) as [s|] eqn:E.
        -- rewrite Eb. specialize (IH Hrest (Some s) Ef).
           destruct (tryModels generate prompt (Some s) options) as [[s' m']|];
             apply outcome_skip; try exact IH; rewrite Eg; exact Ebr.
        -- specialize (IH Hrest None eq_refl).
           destruct (tryModels generate prompt None options) as [[s' m']|];
             apply outcome_skip; try exact IH; rewrite Eg; exact Ebr.
Qed.

(** C3 as stated fails: when the three models of [MODEL_OPTIONS] all
    fail, [usedCannedResponse] is true and [modelUsed] still holds
    [MODEL_NAME], the first model, not null. *)
Lemma fallback_keeps_model_name_counterexample :
  let generate := Sample.scripted [] in
  let o := generateWith generate MODEL_OPTIONS (lit "best CRM") in
  (forall m, In m MODEL_OPTIONS -> failsOrBlank (generate m (lit "best CRM"))) /\
  geminiResponse o = getCannedResponse /\
  usedCannedResponse o = true /\
  modelUsed o = Some (lit "gemini-2.5-flash") /\
  ~ (modelUsed o = None <-> usedCannedResponse o = true).
Proof.
  cbv zeta. split; [intros m _; exact I|].
  repeat split; try reflexivity.
  intros [_ H]. specialize (H eq_refl). discriminate.
Qed.

(** C3, amended: when every candidate fails or yields only empty or
    whitespace text, the outcome is the canned text with
    [usedCannedResponse] true and [modelUsed] the first candidate,
    [MODEL_NAME]; and in every outcome [modelUsed] is not null: it is
    [MODEL_NAME] when [usedCannedResponse] is true, and a candidate of the
    list when it is false. *)
Theorem fallback_outcome :
  forall (generate : Capability) (options : list str) (prompt : str),
    options <> [] ->
    let o := generateWith generate options prompt in
    ((forall m, In m options -> failsOrBlank (generate m prompt)) ->
     o = {| geminiResponse := getCannedResponse;
            usedCannedResponse := true;
            modelUsed := MODEL_NAME_of options |}) /\
    modelUsed o <> None /\
    (usedCannedResponse o = true ->
     geminiResponse o = getCannedResponse /\ modelUsed o = MODEL_NAME_of options) /\
    (usedCannedResponse o = false ->
     exists m, In m options /\ modelUsed o = Some m).
Proof.
  intros generate options prompt Hne. cbv zeta. unfold generateWith.
  split.
  - intros Hall. rewrite (tryModels_all_blank _ _ _ Hall None eq_refl). reflexivity.
  - destruct (tryModels generate prompt None options) as [[s m]|] eqn:E; simpl.
    + split; [discriminate|]. split; [discriminate|].
      intros _. exists m. split; [|reflexivity].
      eapply tryModels_names_candidate. exact E.
    + split; [destruct options; [congruence|discriminate]|].
      split; [auto|discriminate].
Qed.

Lemma fallback_outcome_witness :
  MODEL_OPTIONS <> [] /\
  (forall m, In m MODEL_OPTIONS ->
             failsOrBlank (Sample.scripted [] m (lit "best CRM"))) /\
  generateWith (Sample.scripted []) MODEL_OPTIONS (lit "best CRM") =
    {| geminiResponse := getCannedResponse;
       usedCannedResponse := true;
       modelUsed := Some (lit "gemini-2.5-flash") |}.
Proof.
  assert (H1 : MODEL_OPTIONS <> []) by discriminate.
  assert (H2 : forall m, In m MODEL_OPTIONS ->
                         failsOrBlank (Sample.scripted [] m (lit "best CRM")))
    by (intros m _; exact I).
  exact (conj H1 (conj H2
    (proj1 (fallback_outcome (Sample.scripted []) MODEL_OPTIONS (lit "best CRM") H1) H2))).
Defined.

(** C4: candidates A, B, C, where [text()] of A returns three spaces,
    B fails, and [text()] of C throws while its first candidate holds the
    part "Hello".  Only C produces non-empty text, and section 4.4 gives
    the outcome "Hello" from C without fallback.  In the loop the three
    spaces of A are still in [geminiResponse] when C is tried, the
    extraction from C's parts is skipped, and the run ends with the canned
    text. *)
Theorem stale_text_hides_later_candidate :
  let A := lit "A" in let B := lit "B" in let C := lit "C" in
  let generate :=
    Sample.scripted [(A, Sample.textResponse (lit "   "));
                     (B, GenerationFails);
                     (C, Sample.partsResponse (lit "Hello"))] in
  let prompt := lit "best CRM" in
  failsOrBlank (generate A prompt) /\
  failsOrBlank (generate B prompt) /\
  produces (generate C prompt) (lit "Hello") /\
  outcome generate prompt [A; B; C] (lit "Hello") (Some C) false /\
  generateWith generate [A; B; C] prompt =
    {| geminiResponse := getCannedResponse;
       usedCannedResponse := true;
       modelUsed := Some A |} /\
  generateWith generate [B; C] prompt =
    {| geminiResponse := lit "Hello";
       usedCannedResponse := false;
       modelUsed := Some C |}.
Proof.
  cbv zeta.
  assert (HA : failsOrBlank (Sample.textResponse (lit "   "))) by reflexivity.
  assert (HC : produces (Sample.partsResponse (lit "Hello")) (lit "Hello"))
    by (split; reflexivity).
  repeat split; try reflexivity.
  apply outcome_skip; [exact HA|].
  apply outcome_skip; [exact I|].
  apply outcome_success. exact HC.
Qed.

(* ================================================================== *)
(** ** Patterns without syntax characters                               *)
(* ================================================================== *)

Import RegExp Literal.

(** Case analysis on the eight bits of a code unit. *)
Ltac each_code_unit c := destruct c as [[] [] [] [] [] [] [] []].

Lemma plain_atom (f : str -> Parse Regex) (c : ascii) (rest : str) :
  isSyntaxCharacter c = false ->
  parseAtom f (c :: rest) = Parsed (Char c, true) rest.
Proof. each_code_unit c; intros H; try discriminate H; reflexivity. Qed.

Lemma plain_not_closing (c : ascii) :
  isSyntaxCharacter c = false -> eqc c "|" || eqc c ")" = false.
Proof. each_code_unit c; intros H; try discriminate H; reflexivity. Qed.

Lemma lowerChar_syntax (c : ascii) :
  isSyntaxCharacter (lowerChar c) = isSyntaxCharacter c.
Proof. each_code_unit c; reflexivity. Qed.

Lemma okStart_noQuantifier (s : str) :
  okStart s = true -> parseQuantifier s = Parsed None s.
Proof.
  destruct s as [|c s]; [reflexivity|].
  each_code_unit c; intros H; try discriminate H; reflexivity.
Qed.

Lemma okStart_app (w tail : str) :
  plain w = true -> okStart tail = true -> okStart (w ++ tail) = true.
Proof.
  destruct w as [|c w]; simpl; [auto|].
  intros H _. apply andb_true_iff in H as [H _]. rewrite H. reflexivity.
Qed.

Lemma plain_term (f : str -> Parse Regex) (c : ascii) (rest : str) :
  isSyntaxCharacter c = false -> okStart rest = true ->
  parseTerm f (c :: rest) = Parsed (Char c) rest.
Proof.
  intros Hc Hrest. unfold parseTerm. rewrite (plain_atom f c rest Hc). simpl.
  rewrite (okStart_noQuantifier rest Hrest). reflexivity.
Qed.

(** The separator parses as a greedy star of the class. *)
Lemma separator_term (f : str -> Parse Regex) (rest : str) :
  okStart rest = true ->
  parseTerm f (looseSeparator ++ rest) = Parsed (Repeat looseClass 0 None true) rest.
Proof.
  destruct rest as [|c rest]; [intros _; vm_compute; reflexivity|].
  each_code_unit c; intros H; try discriminate H; vm_compute; reflexivity.
Qed.

Lemma bind_Parsed {A : Type} (p : Parse A) :
  bind p (fun a rest => Parsed a rest) = p.
Proof. destruct p; reflexivity. Qed.

Lemma bind_Parsed_l {A B : Type} (a : A) (rest : str) (k : A -> str -> Parse B) :
  bind (Parsed a rest) k = k a rest.
Proof. reflexivity. Qed.

Lemma bind_bind {A B C : Type} (p : Parse A) (k : A -> str -> Parse B)
      (h : B -> str -> Parse C) :
  bind (bind p k) h = bind p (fun a rest => bind (k a rest) h).
Proof. destruct p; reflexivity. Qed.

(** One step of [parseAlternative] at a code unit that opens a term. *)
Lemma parseAlternative_term (f : str -> Parse Regex) (fuel : nat) (c : ascii)
      (s : str) :
  eqc c "|" || eqc c ")" = false ->
  parseAlternative f (S fuel) (c :: s) =
  bind (parseTerm f (c :: s)) (fun t rest =>
    bind (parseAlternative f fuel rest) (fun a rest' => Parsed (Seq t a) rest')).
Proof. intros H. simpl. rewrite H. reflexivity. Qed.

(** A run of plain code units parses as that many [Char] terms. *)
Lemma parseAlternative_literal (f : str -> Parse Regex) (w : str) :
  forall (tail : str) (fuel : nat),
    plain w = true -> okStart tail = true ->
    parseAlternative f (List.length w + fuel) (w ++ tail) =
    bind (parseAlternative f fuel tail) (fun a rest => Parsed (literal w a) rest).
Proof.
  induction w as [|c w IH]; intros tail fuel Hw Htail.
  - simpl. rewrite bind_Parsed. reflexivity.
  - simpl in Hw. apply andb_true_iff in Hw as [Hc Hw].
    apply negb_true_iff in Hc.
    change (List.length (c :: w) + fuel) with (S (List.length w + fuel)).
    change ((c :: w) ++ tail) with (c :: (w ++ tail)).
    rewrite parseAlternative_term by (apply plain_not_closing; exact Hc).
    rewrite plain_term by (auto using okStart_app).
    rewrite bind_Parsed_l. rewrite IH by assumption.
    rewrite bind_bind. reflexivity.
Qed.

Lemma join_cons2 (sep w w2 : str) (rest : list str) :
  join sep (w :: w2 :: rest) = w ++ sep ++ join sep (w2 :: rest).
Proof. reflexivity. Qed.

Lemma okStart_join (words : list str) :
  forallb plain words = true -> okStart (join looseSeparator words) = true.
Proof.
  destruct words as [|w [|w2 rest]]; simpl; intros H.
  - reflexivity.
  - apply andb_true_iff in H as [H _]. destruct w as [|c w]; [reflexivity|].
    simpl in *. apply andb_true_iff in H as [H _]. rewrite H. reflexivity.
  - apply andb_true_iff in H as [H _]. destruct w as [|c w]; [reflexivity|].
    simpl in *. apply andb_true_iff in H as [H _]. rewrite H. reflexivity.
Qed.

(** The joined words parse, with fuel to spare, as [wordsRegex]. *)
Lemma parseAlternative_words (f : str -> Parse Regex) (words : list str) :
  forallb plain words = true ->
  forall extra,
    parseAlternative f (List.length (join looseSeparator words) + extra)
                     (join looseSeparator words) =
    Parsed (wordsRegex looseClass words) [].
Proof.
  induction words as [|w words IH]; intros Hwords extra.
  - destruct extra; reflexivity.
  - simpl in Hwords. apply andb_true_iff in Hwords as [Hw Hwords].
    destruct words as [|w2 rest].
    + simpl join. rewrite <- (app_nil_r w) at 2.
      rewrite parseAlternative_literal by auto.
      destruct extra; reflexivity.
    + rewrite join_cons2. rewrite length_app, <- Nat.add_assoc.
      rewrite parseAlternative_literal; [|exact Hw|reflexivity].
      rewrite length_app, <- Nat.add_assoc.
      change (List.length looseSeparator) with 9.
      change (9 + ?n) with (S (8 + n)).
      remember (join looseSeparator (w2 :: rest)) as J eqn:EJ.
      change (looseSeparator ++ J) with ("["%char :: (tl looseSeparator ++ J)).
      rewrite parseAlternative_term by reflexivity.
      change ("["%char :: (tl looseSeparator ++ J)) with (looseSeparator ++ J).
      rewrite separator_term by (subst J; apply okStart_join; exact Hwords).
      rewrite bind_Parsed_l.
      replace (8 + (List.length J + extra)) with (List.length J + (8 + extra)) by lia.
      subst J. rewrite (IH Hwords). reflexivity.
Qed.

Lemma parseAlternatives_step (f : str -> Parse Regex) (fuel : nat) (s : str) :
  parseAlternatives f fuel s =
  bind (parseAlternative f (List.length s) s) (fun a rest =>
    match rest with
    | "|"%char :: rest' =>
        match fuel with
        | O => Outside
        | S fuel' =>
            bind (parseAlternatives f fuel' rest') (fun d rest'' =>
              Parsed (Alt a d) rest'')
        end
    | _ => Parsed a rest
    end).
Proof. destruct fuel; reflexivity. Qed.

(** The pattern of brand words without syntax characters is valid, and
    its tree is [wordsRegex]. *)
Lemma parsePattern_words (words : list str) :
  forallb plain words = true ->
  parsePattern (join looseSeparator words) = Compiled (wordsRegex looseClass words).
Proof.
  intros H. unfold parsePattern.
  change (parseDisjunction (S ?n) ?s)
    with (parseAlternatives (parseDisjunction n) (List.length s) s).
  rewrite parseAlternatives_step.
  rewrite <- (Nat.add_0_r (List.length (join looseSeparator words))) at 2.
  rewrite parseAlternative_words by exact H. reflexivity.
Qed.

(** *** The code units of the brand words *)

Lemma plain_forall (s : str) :
  plain s = true <-> (forall c, In c s -> isSyntaxCharacter c = false).
Proof.
  unfold plain. rewrite forallb_forall. split; intros H c Hc.
  - apply negb_true_iff. auto.
  - apply negb_true_iff. auto.
Qed.

Lemma trimStart_incl (s : str) (c : ascii) : In c (trimStart s) -> In c s.
Proof.
  induction s as [|x s IH]; simpl; [auto|].
  destruct (isWhiteSpace x); [auto|]. simpl. auto.
Qed.

Lemma trim_incl (s : str) (c : ascii) : In c (trim s) -> In c s.
Proof.
  unfold trim, trimEnd. intros H.
  apply in_rev in H. apply trimStart_incl in H. apply in_rev in H.
  apply trimStart_incl. exact H.
Qed.

Lemma splitRuns_not_nil (s : str) : forall b, splitRuns b s <> [].
Proof.
  induction s as [|x s IH]; simpl; intros b; [discriminate|].
  destruct (isWhiteSpace x).
  - destruct b; [apply IH|discriminate].
  - destruct (splitRuns false s); discriminate.
Qed.

Lemma splitRuns_incl (s : str) :
  forall b w c, In w (splitRuns b s) -> In c w -> In c s.
Proof.
  induction s as [|x s IH]; simpl; intros b w c Hw Hc.
  - destruct Hw as [<-|[]]. exact Hc.
  - destruct (isWhiteSpace x).
    + destruct b.
      * right. eapply IH; eauto.
      * destruct Hw as [<-|Hw]; [destruct Hc|]. right. eapply IH; eauto.
    + destruct (splitRuns false s) as [|seg rest] eqn:E.
      * destruct Hw as [<-|[]]. destruct Hc as [<-|[]]. auto.
      * destruct Hw as [<-|Hw].
        -- destruct Hc as [<-|Hc]; [auto|]. right.
           apply (IH false seg c); [rewrite E; left; reflexivity|exact Hc].
        -- right. apply (IH false w c); [rewrite E; right; exact Hw|exact Hc].
Qed.

Lemma plain_brandLower (brandName : str) :
  plain brandName = true -> plain (brandLowerOf brandName) = true.
Proof.
  rewrite !plain_forall. intros H c Hc. unfold brandLowerOf in Hc.
  apply trim_incl in Hc. unfold toLowerCase in Hc.
  apply in_map_iff in Hc as [x [<- Hx]]. rewrite lowerChar_syntax. auto.
Qed.

Lemma plain_words (s : str) :
  plain s = true -> forallb plain (splitWhitespace s) = true.
Proof.
  intros H. apply forallb_forall. intros w Hw.
  rewrite plain_forall in *. intros c Hc. apply H.
  eapply splitRuns_incl; eauto.
Qed.

(** A brand name without syntax characters always gives a valid pattern. *)
Lemma plain_brand_constructs (brandLower : str) :
  plain brandLower = true ->
  newRegExp_i (brandPatternOf brandLower) =
  Constructed {| pattern := wordsRegex looseClass (splitWhitespace brandLower);
                 ignoreCase := true |}.
Proof.
  intros H. unfold newRegExp_i, brandPatternOf.
  rewrite parsePattern_words by (apply plain_words; exact H). reflexivity.
Qed.

(* ================================================================== *)
(** ** What the pattern of plain brand words matches                    *)
(* ================================================================== *)

(** The case folding of the [i] flag identifies the code units that
    [toLowerCase] identifies. *)
Lemma canonicalize_lowerChar (a b : ascii) :
  eqc (canonicalize true a) (canonicalize true b) = true <->
  lowerChar a = lowerChar b.
Proof.
  assert (Hup : forall c, upperChar (lowerChar c) = upperChar c)
    by (intros c; each_code_unit c; reflexivity).
  assert (Hlow : forall c, lowerChar (upperChar c) = lowerChar c)
    by (intros c; each_code_unit c; reflexivity).
  unfold canonicalize, eqc. rewrite Ascii.eqb_eq. split; intros H.
  - rewrite <- (Hlow a), <- (Hlow b), H. reflexivity.
  - rewrite <- (Hup a), <- (Hup b), H. reflexivity.
Qed.

Lemma looseClass_run (st : State) :
  run true looseClass st = step isLooseSeparator st.
Proof.
  unfold looseClass, run, step. destruct (snd st) as [|x rest]; [reflexivity|].
  replace (xorb false (existsb (itemMatches true x) [CEsc Space; CChar "-"; CChar "_"]))
    with (isLooseSeparator x); [reflexivity|].
  each_code_unit x; reflexivity.
Qed.

Lemma statedClass_run (st : State) :
  run true statedClass st = step isStatedSeparator st.
Proof.
  unfold statedClass, run, step. destruct (snd st) as [|x rest]; [reflexivity|].
  replace (xorb false (existsb (itemMatches true x) [CChar " "; CChar "-"; CChar "_"]))
    with (isStatedSeparator x); [reflexivity|].
  each_code_unit x; reflexivity.
Qed.

Lemma step_In (ok : ascii -> bool) (prev rest : str) (st' : State) :
  In st' (step ok (prev, rest)) <->
  exists x rest', rest = x :: rest' /\ ok x = true /\ st' = (x :: prev, rest').
Proof.
  unfold step. simpl. destruct rest as [|x rest].
  - split; [intros []|intros (x & rest' & H & _); discriminate].
  - destruct (ok x) eqn:E; simpl.
    + split.
      * intros [<-|[]]. exists x, rest. auto.
      * intros (y & rest' & H & _ & ->). inversion H. auto.
    + split; [intros []|].
      intros (y & rest' & H & Hy & _). inversion H; subst. congruence.
Qed.

Lemma sameIgnoringCase_nil (found : str) :
  sameIgnoringCase found [] <-> found = [].
Proof.
  unfold sameIgnoringCase, toLowerCase. split.
  - destruct found; [reflexivity|discriminate].
  - intros ->. reflexivity.
Qed.

(** A literal matches the code units of the word in any casing. *)
Lemma run_literal (w : str) :
  forall (tail : Regex) (prev rest : str) (st' : State),
    In st' (run true (literal w tail) (prev, rest)) <->
    exists found rest1,
      rest = found ++ rest1 /\ sameIgnoringCase found w /\
      In st' (run true tail (rev found ++ prev, rest1)).
Proof.
  induction w as [|c w IH]; intros tail prev rest st'.
  - simpl. split.
    + intros H. exists [], rest. rewrite sameIgnoringCase_nil. auto.
    + intros (found & rest1 & -> & Hf & H).
      apply (proj1 (sameIgnoringCase_nil found)) in Hf. subst found. exact H.
  - simpl literal. simpl run. rewrite in_flat_map. split.
    + intros (st1 & Hstep & Hrun).
      apply step_In in Hstep as (x & rest' & -> & Hx & ->).
      apply IH in Hrun as (found & rest1 & -> & Hf & Hrun).
      exists (x :: found), rest1. split; [reflexivity|]. split.
      * unfold sameIgnoringCase in *. simpl. f_equal; [|exact Hf].
        symmetry. apply canonicalize_lowerChar. exact Hx.
      * simpl. rewrite <- app_assoc. exact Hrun.
    + intros (found & rest1 & -> & Hf & Hrun).
      destruct found as [|x found]; [discriminate Hf|].
      unfold sameIgnoringCase in Hf. simpl in Hf. inversion Hf as [[Hx Hf']].
      exists (x :: prev, found ++ rest1). split.
      * apply step_In. exists x, (found ++ rest1). repeat split.
        apply canonicalize_lowerChar. symmetry. exact Hx.
      * apply IH. exists found, rest1. repeat split; [exact Hf'|].
        simpl in Hrun. rewrite <- app_assoc in Hrun. exact Hrun.
Qed.

(** A star of single separators matches any run of separators. *)
Lemma repeat_gap (body : State -> list State) (sep : ascii -> bool) :
  (forall st, body st = step sep st) ->
  forall (rest : str) (fuel : nat) (prev : str) (st' : State),
    List.length rest < fuel ->
    (In st' (repeatFrom body fuel 0 None (prev, rest)) <->
     exists gap rest1,
       rest = gap ++ rest1 /\ forallb sep gap = true /\
       st' = (rev gap ++ prev, rest1)).
Proof.
  intros Hbody rest.
  induction rest as [|x rest IH]; intros fuel prev st' Hfuel;
    (destruct fuel as [|fuel]; [lia|]); simpl repeatFrom; rewrite Hbody;
    unfold step; simpl snd; simpl fst.
  - simpl. split.
    + intros [<-|[]]. exists [], []. auto.
    + intros (gap & rest1 & H & _ & ->).
      symmetry in H. apply app_eq_nil in H as [-> ->]. auto.
  - destruct (sep x) eqn:Ex.
    + simpl. rewrite Ex. simpl.
      unfold progress. simpl.
      rewrite (proj2 (Nat.ltb_lt (List.length rest) (S (List.length rest))))
        by lia.
      simpl. rewrite app_nil_r. rewrite IH by (simpl in Hfuel; lia). split.
      * intros [<-|(gap & rest1 & -> & Hgap & ->)].
        -- exists [], (x :: rest). auto.
        -- exists (x :: gap), rest1. simpl. rewrite Ex, Hgap, <- app_assoc. auto.
      * intros (gap & rest1 & H & Hgap & ->).
        destruct gap as [|y gap]; simpl in *.
        -- left. subst rest1. reflexivity.
        -- right. inversion H; subst. apply andb_true_iff in Hgap as [_ Hgap].
           exists gap, rest1. rewrite <- app_assoc. auto.
    + simpl. rewrite Ex. simpl. split.
      * intros [<-|[]]. exists [], (x :: rest). auto.
      * intros (gap & rest1 & H & Hgap & ->).
        destruct gap as [|y gap]; simpl in *.
        -- left. subst rest1. reflexivity.
        -- inversion H; subst. rewrite Ex in Hgap. discriminate.
Qed.

Lemma run_star_then (gapR r : Regex) (prev rest : str) :
  run true (Seq (Repeat gapR 0 None true) r) (prev, rest) =
  flat_map (run true r)
           (repeatFrom (run true gapR) (S (List.length rest)) 0 None (prev, rest)).
Proof. reflexivity. Qed.

(** [wordsRegex] matches the words in order with separators between. *)
Lemma run_words (gapR : Regex) (sep : ascii -> bool) :
  (forall st, run true gapR st = step sep st) ->
  forall (words : list str), words <> [] ->
  forall (prev rest : str) (st' : State),
    In st' (run true (wordsRegex gapR words) (prev, rest)) <->
    exists found rest1,
      rest = found ++ rest1 /\ wordsInOrder sep words found /\
      st' = (rev found ++ prev, rest1).
Proof.
  intros Hgap words.
  induction words as [|w words IH]; intros Hne prev rest st'; [congruence|].
  destruct words as [|w2 ws].
  - simpl wordsRegex. rewrite run_literal. split.
    + intros (found & rest1 & -> & Hf & [<-|[]]).
      exists found, rest1. repeat split. constructor. exact Hf.
    + intros (found & rest1 & -> & Hw & ->). inversion Hw; subst.
      * exists found, rest1. repeat split; [assumption|left; reflexivity].
      * match goal with H : wordsInOrder _ [] _ |- _ => inversion H end.
  - assert (Hne2 : w2 :: ws <> []) by discriminate.
    change (wordsRegex gapR (w :: w2 :: ws))
      with (literal w (Seq (Repeat gapR 0 None true) (wordsRegex gapR (w2 :: ws)))).
    rewrite run_literal. split.
    + intros (found & rest1 & -> & Hf & Hrun).
      rewrite run_star_then in Hrun.
      apply in_flat_map in Hrun as (st1 & Hstar & Hrest).
      apply (repeat_gap _ sep Hgap) in Hstar as (gap & rest2 & -> & Hg & ->); [|lia].
      apply (IH Hne2) in Hrest as (found2 & rest3 & -> & Hw & ->).
      exists (found ++ gap ++ found2), rest3. repeat split.
      * rewrite <- !app_assoc. reflexivity.
      * constructor; assumption.
      * rewrite !rev_app_distr, <- !app_assoc. reflexivity.
    + intros (mid & rest1 & -> & Hw & ->).
      inversion Hw as [|w' words' found gap rest0 Hf Hg Hrest]; subst.
      exists found, (gap ++ rest0 ++ rest1). repeat split.
      * rewrite <- !app_assoc. reflexivity.
      * assumption.
      * rewrite run_star_then. apply in_flat_map.
        exists (rev gap ++ rev found ++ prev, rest0 ++ rest1). split.
        -- apply (repeat_gap _ sep Hgap); [lia|].
           exists gap, (rest0 ++ rest1). auto.
        -- apply (IH Hne2). exists rest0, rest1. repeat split; [assumption|].
           rewrite !rev_app_distr, <- !app_assoc. reflexivity.
Qed.

Lemma earlier_In (prev : str) :
  forall (rest : str) (st : State),
    In st (earlier prev rest) <->
    exists a b, prev = a ++ b /\ st = (b, rev a ++ rest).
Proof.
  induction prev as [|x prev IH]; intros rest st; simpl.
  - split.
    + intros [<-|[]]. exists [], []. auto.
    + intros (a & b & H & ->). symmetry in H. apply app_eq_nil in H as [-> ->].
      auto.
  - rewrite IH. split.
    + intros [<-|(a & b & -> & ->)].
      * exists [], (x :: prev). auto.
      * exists (x :: a), b. simpl. rewrite <- app_assoc. auto.
    + intros (a & b & H & ->). destruct a as [|y a]; simpl in *.
      * left. subst b. reflexivity.
      * right. inversion H; subst. exists a, b. rewrite <- app_assoc. auto.
Qed.

Lemma positions_In (input : str) (st : State) :
  In st (positions input) <->
  exists before after, input = before ++ after /\ st = (rev before, after).
Proof.
  unfold positions. rewrite earlier_In. split.
  - intros (a & b & H & ->). exists (rev b), (rev a). split.
    + rewrite <- rev_app_distr, <- H, rev_involutive. reflexivity.
    + rewrite rev_involutive, app_nil_r. reflexivity.
  - intros (before & after & -> & ->). exists (rev after), (rev before). split.
    + rewrite rev_app_distr. reflexivity.
    + rewrite rev_involutive, app_nil_r. reflexivity.
Qed.

Lemma nonEmpty_In {A : Type} (l : list A) :
  nonEmpty l = true <-> exists x, In x l.
Proof.
  destruct l as [|x l]; simpl.
  - split; [discriminate|intros [x []]].
  - split; [intros _; exists x; auto|reflexivity].
Qed.

(** [test] with the tree of the words says whether the input loosely
    contains them. *)
Lemma test_words (gapR : Regex) (sep : ascii -> bool) (words : list str)
      (input : str) :
  (forall st, run true gapR st = step sep st) -> words <> [] ->
  (test {| pattern := wordsRegex gapR words; ignoreCase := true |} input = true <->
   looselyContains sep words input).
Proof.
  intros Hgap Hne. unfold test, looselyContains. simpl.
  rewrite existsb_exists. split.
  - intros (st & Hst & Hrun).
    apply positions_In in Hst as (before & after & -> & ->).
    apply nonEmpty_In in Hrun as (st' & Hrun).
    apply (run_words gapR sep Hgap words Hne) in Hrun as (found & rest1 & -> & Hw & _).
    exists before, found, rest1. auto.
  - intros (before & found & after & -> & Hw).
    exists (rev before, found ++ after). split.
    + apply positions_In. exists before, (found ++ after). auto.
    + apply nonEmpty_In. exists (rev found ++ rev before, after).
      apply (run_words gapR sep Hgap words Hne). exists found, after. auto.
Qed.

(* ================================================================== *)
(** ** The loose-punctuation pass                                       *)
(* ================================================================== *)

Lemma brandWordsOf_not_nil (brandName : str) : brandWordsOf brandName <> [].
Proof. apply splitRuns_not_nil. Qed.

(** C7 as stated fails on a tab.  In the text "Acme<TAB>Corp. Acme-Corp"
    with the brand "Acme Corp" no segment contains the brand verbatim, and
    only the second segment has the two words separated by spaces, hyphens
    or underscores; the class of the pattern has all whitespace in it, the
    first segment matches, and the detector returns position 1. *)
Lemma loose_pass_tab_counterexample :
  let text := lit "Acme" ++ [Sample.tab] ++ lit "Corp. Acme-Corp" in
  let brandName := lit "Acme Corp" in
  brandWordsOf brandName = [lit "acme"; lit "corp"] /\
  (forall s, In s (segmentsOf text) -> ~ containsBrand brandName s) /\
  firstSegment (looselyContains isStatedSeparator (brandWordsOf brandName)) text 1 /\
  detectBrandMention text brandName = Normal (mentionedAt 1) /\
  Normal (mentionedAt 1) <> Normal (mentionedAt (Z.of_nat 1 + 1)).
Proof.
  cbv zeta. split; [reflexivity|]. split; [|split; [|split]].
  - assert (H : firstHit (fun segment => includes (toLowerCase segment)
                                            (brandLowerOf (lit "Acme Corp")))
                         (segmentsOf (lit "Acme" ++ [Sample.tab] ++ lit "Corp. Acme-Corp"))
                         0 = None)
      by (vm_compute; reflexivity).
    rewrite firstHit_none in H. intros s Hs Hc. unfold containsBrand in Hc.
    rewrite (H s Hs) in Hc. discriminate.
  - split.
    + exists (lit " Acme-Corp"). split; [reflexivity|].
      exists (lit " "), (lit "Acme" ++ lit "-" ++ lit "Corp"), []. split; [reflexivity|].
      change (brandWordsOf (lit "Acme Corp")) with [lit "acme"; lit "corp"].
      apply wordsInOrder_more; [reflexivity|reflexivity|].
      apply wordsInOrder_last. reflexivity.
    + intros j segment Hj Hs. destruct j as [|j]; [|lia].
      inversion Hs; subst. intros Hc.
      apply (test_words statedClass isStatedSeparator) in Hc;
        [|exact statedClass_run|apply brandWordsOf_not_nil].
      vm_compute in Hc. discriminate.
  - vm_compute. reflexivity.
  - discriminate.
Qed.

(** The comparison of the [i] flag and the comparison of lower-cased
    strings agree on the code units of the model. *)
Lemma matchesWord_lower (found w : str) :
  Folding.matchesWord found w <-> sameIgnoringCase found w.
Proof.
  unfold Folding.matchesWord, sameIgnoringCase, toLowerCase. split.
  - induction 1 as [|x c found' w' Hx _ IH]; simpl; [reflexivity|].
    f_equal; [|exact IH]. symmetry. apply canonicalize_lowerChar. exact Hx.
  - revert w. induction found as [|x found IH]; intros [|c w] H;
      try discriminate H; constructor.
    + apply canonicalize_lowerChar. simpl in H. inversion H. reflexivity.
    + apply IH. simpl in H. inversion H. reflexivity.
Qed.

Lemma wordsMatched_lower (sep : ascii -> bool) (words : list str) (found : str) :
  Folding.wordsMatched sep words found <-> wordsInOrder sep words found.
Proof.
  split; induction 1; constructor; try assumption; apply matchesWord_lower; assumption.
Qed.

Lemma containsMatch_lower (sep : ascii -> bool) (words : list str) (segment : str) :
  Folding.containsMatch sep words segment <-> looselyContains sep words segment.
Proof.
  unfold Folding.containsMatch, looselyContains.
  split; intros (before & found & after & Hs & Hw); exists before, found, after;
    (split; [exact Hs|]); apply wordsMatched_lower; exact Hw.
Qed.

Lemma firstSegment_iff (P Q : str -> Prop) (text : str) (k : nat) :
  (forall s, P s <-> Q s) -> firstSegment P text k -> firstSegment Q text k.
Proof.
  intros H [[segment [Hk Hp]] Hfirst]. split.
  - exists segment. split; [exact Hk|apply H; exact Hp].
  - intros j s Hj Hs Hq. apply (Hfirst j s Hj Hs). apply H. exact Hq.
Qed.

(** The loose pass finds the first segment that has the words. *)
Lemma loose_pass_hit (text brandName : str) (k : nat) :
  text <> [] ->
  plain brandName = true ->
  (forall s, In s (segmentsOf text) -> ~ containsBrand brandName s) ->
  firstSegment (looselyContains isLooseSeparator (brandWordsOf brandName)) text k ->
  detectBrandMention text brandName = Normal (mentionedAt (Z.of_nat k + 1)).
Proof.
  intros Ht Hplain Hmiss [[segment [Hk Hhit]] Hfirst].
  assert (Hb : brandName <> []).
  { intros ->. apply nth_error_In in Hk. apply (Hmiss segment Hk).
    unfold containsBrand. apply includes_nil. }
  rewrite detect_passes by assumption.
  replace (firstHit _ _ _) with (@None Z).
  2:{ symmetry. apply firstHit_none. intros s Hs. specialize (Hmiss s Hs).
      unfold containsBrand in Hmiss. destruct (includes _ _); [congruence|reflexivity]. }
  rewrite plain_brand_constructs by (apply plain_brandLower; exact Hplain).
  pose proof (test_words looseClass isLooseSeparator (brandWordsOf brandName))
    as Htest.
  unfold brandWordsOf in *.
  erewrite firstHit_first; [reflexivity|exact Hk| |].
  - apply Htest; [exact looseClass_run|apply splitRuns_not_nil|exact Hhit].
  - intros j s Hj Hs. specialize (Hfirst j s Hj Hs).
    destruct (test _ s) eqn:E; [|reflexivity].
    exfalso. apply Hfirst.
    apply Htest in E; [exact E|exact looseClass_run|apply splitRuns_not_nil].
Qed.

(** C7, amended: for every non-empty text and every brand name without
    pattern syntax characters, where no segment contains the trimmed brand
    verbatim, if segment [k] is the first segment that has the
    whitespace-tokenized words of the lower-cased trimmed brand name in
    order, each word matched code unit by code unit as the [i] flag
    compares (equal once canonicalized), separated by zero or more of
    whitespace, hyphen or underscore, the detector returns
    [{mentioned: true, position: k + 1}]. *)
Theorem loose_pass_first_segment :
  forall (text brandName : str) (k : nat),
    text <> [] ->
    plain brandName = true ->
    (forall s, In s (segmentsOf text) -> ~ containsBrand brandName s) ->
    firstSegment (Folding.containsMatch isLooseSeparator (brandWordsOf brandName))
                 text k ->
    detectBrandMention text brandName = Normal (mentionedAt (Z.of_nat k + 1)).
Proof.
  intros text brandName k Ht Hplain Hmiss Hseg.
  apply loose_pass_hit; try assumption.
  revert Hseg. apply firstSegment_iff. intros s. apply containsMatch_lower.
Qed.

Lemma loose_pass_first_segment_witness :
  let text := lit "We recommend Acme-Corp for this." in
  let brandName := lit "Acme Corp" in
  text <> [] /\ plain brandName = true /\
  (forall s, In s (segmentsOf text) -> ~ containsBrand brandName s) /\
  firstSegment (Folding.containsMatch isLooseSeparator (brandWordsOf brandName))
               text 0 /\
  detectBrandMention text brandName = Normal (mentionedAt (Z.of_nat 0 + 1)).
Proof.
  cbv zeta.
  assert (H1 : lit "We recommend Acme-Corp for this." <> []) by discriminate.
  assert (H3 : plain (lit "Acme Corp") = true) by reflexivity.
  assert (H4 : forall s, In s (segmentsOf (lit "We recommend Acme-Corp for this.")) ->
                         ~ containsBrand (lit "Acme Corp") s).
  { intros s [<-|[<-|[]]]; unfold containsBrand; vm_compute; discriminate. }
  assert (H5 : firstSegment
                 (Folding.containsMatch isLooseSeparator
                    (brandWordsOf (lit "Acme Corp")))
                 (lit "We recommend Acme-Corp for this.") 0).
  { split.
    - exists (lit "We recommend Acme-Corp for this"). split; [reflexivity|].
      exists (lit "We recommend "), (lit "Acme" ++ lit "-" ++ lit "Corp"),
             (lit " for this").
      split; [reflexivity|].
      change (brandWordsOf (lit "Acme Corp")) with [lit "acme"; lit "corp"].
      apply Folding.wordsMatched_more;
        [repeat constructor|reflexivity|].
      apply Folding.wordsMatched_last. repeat constructor.
    - intros j segment Hj. lia. }
  exact (conj H1 (conj H3 (conj H4 (conj H5
           (loose_pass_first_segment _ _ _ H1 H3 H4 H5))))).
Defined.

(* ================================================================== *)
(** ** The handler when the detector throws                             *)
(* ================================================================== *)

Import Handler.

Lemma startsWith_incl (p : str) :
  forall (s : str) (c : ascii), startsWith s p = true -> In c p -> In c s.
Proof.
  induction p as [|a p IH]; intros s c H Hc; [destruct Hc|].
  destruct s as [|b s]; simpl in H.
  - destruct p; discriminate.
  - apply andb_true_iff in H as [Hab H]. apply Ascii.eqb_eq in Hab. subst b.
    destruct Hc as [<-|Hc]; [left; reflexivity|right; eauto].
Qed.

Lemma includes_incl (s p : str) (c : ascii) :
  includes s p = true -> In c p -> In c s.
Proof.
  induction s as [|b s IH]; simpl; intros H Hc.
  - destruct p; [destruct Hc|discriminate].
  - apply orb_true_iff in H as [H|H].
    + eapply (startsWith_incl p (b :: s)); eauto.
    + right. auto.
Qed.

(** No segment of the canned text holds a pattern syntax character. *)
Lemma canned_segments_plain (s : str) :
  In s (segmentsOf getCannedResponse) -> plain (toLowerCase s) = true.
Proof.
  assert (H : forallb (fun s => plain (toLowerCase s))
                      (segmentsOf getCannedResponse) = true)
    by (vm_compute; reflexivity).
  rewrite forallb_forall in H. apply H.
Qed.

(** A brand name on which the detector throws is not in the canned text,
    so that the detector throws on the canned text as well. *)
Lemma detect_throws_on_canned (text brandName : str) :
  detectBrandMention text brandName = Throws ->
  detectBrandMention getCannedResponse brandName = Throws.
Proof.
  intros H. apply detect_throws_iff in H as (_ & Hb & _ & Hre).
  apply detect_throws_iff. repeat split; try assumption; [discriminate|].
  intros s Hs Hc. unfold containsBrand in Hc.
  assert (Hplain : plain (brandLowerOf brandName) = true).
  { apply plain_forall. intros c Hin.
    pose proof (canned_segments_plain s Hs) as Hseg. rewrite plain_forall in Hseg.
    apply Hseg. eapply includes_incl; eauto. }
  rewrite (plain_brand_constructs _ Hplain) in Hre. discriminate.
Qed.

(** C8: after validation the only failure that the model loop does not
    absorb is the SyntaxError of the detector (the loop itself always ends
    with a text).  The [catch] block then runs the detector with the same
    brand name on the canned text, where it throws again: the handler
    sends nothing, and no payload with [errorOccurred] is ever sent for
    such a request. *)
Theorem detector_failure_is_not_absorbed :
  forall (generate : Capability) (options : list str) (p b : str),
    isEmpty p = false -> isEmpty b = false ->
    isBlankField p = false -> isBlankField b = false ->
    let body := {| prompt := Some p; brandName := Some b |} in
    (detectBrandMention (geminiResponse (generateWith generate options p)) b = Throws ->
     checkBrand generate options body = Rejects) /\
    (forall data, checkBrand generate options body = Sends (Json200 data) ->
                  data_errorOccurred data = false).
Proof.
  intros generate options p b Hp Hb Hbp Hbb. cbv zeta.
  unfold checkBrand. simpl. rewrite Hp, Hb, Hbp, Hbb. simpl.
  destruct (detectBrandMention (geminiResponse (generateWith generate options p)) b)
    as [d| |] eqn:E.
  - split; [discriminate|]. intros data H. inversion H. reflexivity.
  - unfold onServerError. rewrite (detect_throws_on_canned _ _ E).
    split; [reflexivity|discriminate].
  - split; discriminate.
Qed.

Lemma detector_failure_is_not_absorbed_witness :
  let generate :=
    Sample.scripted [(lit "gemini-2.5-flash", Sample.textResponse (lit "I like Java."))] in
  let p := lit "best language" in
  let b := lit "C++" in
  isEmpty p = false /\ isEmpty b = false /\
  isBlankField p = false /\ isBlankField b = false /\
  geminiResponse (generateWith generate MODEL_OPTIONS p) = lit "I like Java." /\
  detectBrandMention (geminiResponse (generateWith generate MODEL_OPTIONS p)) b = Throws /\
  checkBrand generate MODEL_OPTIONS {| prompt := Some p; brandName := Some b |} = Rejects.
Proof.
  cbv zeta.
  assert (H1 : isEmpty (lit "best language") = false) by reflexivity.
  assert (H2 : isEmpty (lit "C++") = false) by reflexivity.
  assert (H3 : isBlankField (lit "best language") = false) by reflexivity.
  assert (H4 : isBlankField (lit "C++") = false) by reflexivity.
  assert (H5 : geminiResponse
                 (generateWith
                    (Sample.scripted [(lit "gemini-2.5-flash",
                                       Sample.textResponse (lit "I like Java."))])
                    MODEL_OPTIONS (lit "best language")) = lit "I like Java.")
    by reflexivity.
  assert (H6 : detectBrandMention
                 (geminiResponse
                    (generateWith
                       (Sample.scripted [(lit "gemini-2.5-flash",
                                          Sample.textResponse (lit "I like Java."))])
                       MODEL_OPTIONS (lit "best language")))
                 (lit "C++") = Throws)
    by (vm_compute; reflexivity).
  exact (conj H1 (conj H2 (conj H3 (conj H4 (conj H5 (conj H6
    (proj1 (detector_failure_is_not_absorbed _ _ _ _ H1 H2 H3 H4) H6))))))).
Defined.

(* ================================================================== *)
(** ** Further properties of the three passes                           *)
(* ================================================================== *)

Lemma cumulativeLength_cons (s : str) (segments : list str) (k : nat) :
  cumulativeLength (s :: segments) (S k) = (len s + cumulativeLength segments k)%Z.
Proof. reflexivity. Qed.

Lemma owningSegment_reaches (segments : list str) :
  forall (j n target : Z) (k : nat),
    k < List.length segments ->
    (target <= n + cumulativeLength segments (S k))%Z ->
    (forall i, i < k -> (n + cumulativeLength segments (S i) < target)%Z) ->
    owningSegment segments j n target = Some (j + Z.of_nat k + 1)%Z.
Proof.
  induction segments as [|s segments IH]; intros j n target k Hk Hle Hlt;
    [simpl in Hk; lia|].
  simpl owningSegment. destruct k as [|k].
  - rewrite cumulativeLength_cons in Hle. unfold cumulativeLength in Hle.
    simpl in Hle.
    replace (target <=? n + len s)%Z with true by (symmetry; apply Z.leb_le; lia).
    f_equal. lia.
  - pose proof (Hlt 0 (Nat.lt_0_succ k)) as H0.
    rewrite cumulativeLength_cons in H0. unfold cumulativeLength in H0. simpl in H0.
    replace (target <=? n + len s)%Z with false by (symmetry; apply Z.leb_gt; lia).
    rewrite (IH (j + 1)%Z (n + len s)%Z target k).
    + f_equal. lia.
    + simpl in Hk. lia.
    + rewrite cumulativeLength_cons in Hle. lia.
    + intros i Hi. specialize (Hlt (S i) (proj1 (Nat.succ_lt_mono i k) Hi)).
      rewrite cumulativeLength_cons in Hlt. lia.
Qed.

Lemma partialPass_first (textLower brandLower : str) (segments : list str)
      (before : list str) :
  forall (w : str) (after : list str) (p : Z),
    (forall u, In u before ->
       fuzzyHit (stripNonAlnum u) (stripNonAlnum brandLower) = false) ->
    fuzzyHit (stripNonAlnum w) (stripNonAlnum brandLower) = true ->
    owningSegment segments 0 0 (indexOf textLower (stripNonAlnum w)) = Some p ->
    partialPass textLower brandLower segments (before ++ w :: after) = Some p.
Proof.
  induction before as [|u before IH]; intros w after p Hbefore Hw Hp; simpl.
  - rewrite Hw, Hp. reflexivity.
  - rewrite (Hbefore u (or_introl eq_refl)). apply IH; auto.
    intros u' Hu'. apply Hbefore. right. exact Hu'.
Qed.

(** The partial-word pass, where the position loop finds a segment: if
    the first two passes miss, and for the first word that hits the
    cumulative segment length reaches the index of the stripped word in
    the lower-cased text at segment [k], the detector returns
    [{mentioned: true, position: k + 1}]. *)
Theorem partial_pass_position :
  forall (text brandName : str) (regex : RegExp) (w : str) (k : nat),
    text <> [] -> brandName <> [] ->
    (forall s, In s (segmentsOf text) -> ~ containsBrand brandName s) ->
    newRegExp_i (brandPatternOf (brandLowerOf brandName)) = Constructed regex ->
    (forall s, In s (segmentsOf text) -> test regex s = false) ->
    firstFuzzyWord text brandName w ->
    reaches (segmentsOf text) (indexOf (toLowerCase text) (stripNonAlnum w)) k ->
    detectBrandMention text brandName = Normal (mentionedAt (Z.of_nat k + 1)).
Proof.
  intros text brandName regex w k Ht Hb Hexact Hre Hloose
         (before & after & Hwords & Hw & Hbefore) (Hk & Hle & Hlt).
  rewrite detect_passes by assumption.
  replace (firstHit _ _ _) with (@None Z).
  2:{ symmetry. apply firstHit_none. intros s Hs. specialize (Hexact s Hs).
      unfold containsBrand in Hexact. destruct (includes _ _); [congruence|reflexivity]. }
  rewrite Hre.
  replace (firstHit (test regex) _ _) with (@None Z)
    by (symmetry; apply firstHit_none; exact Hloose).
  rewrite Hwords.
  rewrite (partialPass_first _ _ _ before w after (0 + Z.of_nat k + 1)%Z Hbefore Hw).
  - reflexivity.
  - apply owningSegment_reaches; [exact Hk|lia|intros i Hi; specialize (Hlt i Hi); lia].
Qed.

Lemma partial_pass_position_witness :
  let text := lit "v1.2.3.4.5 acmecorp" in
  let brandName := lit "Acme-Corp Inc" in
  indexOf (toLowerCase text) (lit "acmecorp") = 11%Z /\
  map len (segmentsOf text) = [2; 1; 1; 1; 10]%Z /\
  detectBrandMention text brandName = Normal (mentionedAt (Z.of_nat 4 + 1)).
Proof.
  cbv zeta. split; [reflexivity|]. split; [reflexivity|].
  assert (Hre : newRegExp_i (brandPatternOf (brandLowerOf (lit "Acme-Corp Inc"))) =
                Constructed {| pattern := wordsRegex looseClass
                                            [lit "acme-corp"; lit "inc"];
                               ignoreCase := true |})
    by (vm_compute; reflexivity).
  apply (partial_pass_position (lit "v1.2.3.4.5 acmecorp") (lit "Acme-Corp Inc")
           {| pattern := wordsRegex looseClass [lit "acme-corp"; lit "inc"];
              ignoreCase := true |}
           (lit "acmecorp") 4 ltac:(discriminate) ltac:(discriminate)).
  - intros s Hs Hc.
    assert (H : forallb (fun s => negb (includes (toLowerCase s)
                                          (brandLowerOf (lit "Acme-Corp Inc"))))
                        (segmentsOf (lit "v1.2.3.4.5 acmecorp")) = true)
      by (vm_compute; reflexivity).
    rewrite forallb_forall in H. specialize (H s Hs). unfold containsBrand in Hc.
    rewrite Hc in H. discriminate.
  - exact Hre.
  - intros s Hs.
    assert (H : forallb (fun s => negb (test {| pattern := wordsRegex looseClass
                                                  [lit "acme-corp"; lit "inc"];
                                                ignoreCase := true |} s))
                        (segmentsOf (lit "v1.2.3.4.5 acmecorp")) = true)
      by (vm_compute; reflexivity).
    rewrite forallb_forall in H. specialize (H s Hs).
    apply negb_true_iff in H. exact H.
  - exists [lit "v1.2.3.4.5"], []. split; [reflexivity|]. split; [reflexivity|].
    intros u [<-|[]]. reflexivity.
  - split; [simpl; lia|]. split; [vm_compute; discriminate|].
    intros i Hi.
    destruct i as [|[|[|[|i]]]]; try lia; vm_compute; reflexivity.
Defined.

(** The detector throws exactly when text and brand name are non-empty,
    no segment contains the brand, and the joined brand words are not a
    valid pattern. *)
Theorem detect_throws_exactly :
  forall (text brandName : str),
    detectBrandMention text brandName = Throws <->
    text <> [] /\ brandName <> [] /\
    (forall s, In s (segmentsOf text) -> ~ containsBrand brandName s) /\
    newRegExp_i (brandPatternOf (brandLowerOf brandName)) = ThrowsSyntaxError.
Proof. exact detect_throws_iff. Qed.

(* ================================================================== *)
(** ** Further properties of the loop and of the handler                *)
(* ================================================================== *)

(** Where no response carries text that is non-empty yet only
    whitespace, the loop gives the outcome of section 4.4: the text and
    the identifier of the first candidate that produces non-empty text,
    and the canned text when there is none. *)
Theorem generate_meets_stated :
  forall (generate : Capability) (options : list str) (prompt : str),
    (forall m r, In m options -> generate m prompt = Responds r ->
                 isBlank (extractText r) = true -> isFalsy (extractText r) = true) ->
    let o := generateWith generate options prompt in
    outcome generate prompt options (geminiResponse o)
            (if usedCannedResponse o then None else modelUsed o)
            (usedCannedResponse o).
Proof.
  intros generate options prompt Hclean. cbv zeta. unfold generateWith.
  pose proof (tryModels_meets_stated generate prompt options Hclean None eq_refl) as H.
  destruct (tryModels generate prompt None options) as [[s m]|]; exact H.
Qed.

Lemma generate_meets_stated_witness :
  let generate :=
    Sample.scripted [(lit "B", GenerationFails);
                     (lit "C", Sample.partsResponse (lit "Hello"))] in
  outcome generate (lit "best CRM") [lit "A"; lit "B"; lit "C"]
          (lit "Hello") (Some (lit "C")) false.
Proof.
  cbv zeta.
  refine (generate_meets_stated
            (Sample.scripted [(lit "B", GenerationFails);
                              (lit "C", Sample.partsResponse (lit "Hello"))])
            [lit "A"; lit "B"; lit "C"] (lit "best CRM") _).
  intros m r [<-|[<-|[<-|[]]]] Hr; try discriminate Hr.
  inversion Hr; subst. intros H. vm_compute in H. discriminate.
Defined.

(** *** The validation over any JSON body *)

Lemma wire_detect_string (text b : str) :
  Wire.detectBrandMention text (Wire.VString b) = detectBrandMention text b.
Proof.
  unfold Wire.detectBrandMention. cbn [Wire.isFalsy].
  destruct (isEmpty text || isEmpty b) eqn:E; [|reflexivity].
  unfold detectBrandMention. rewrite E. reflexivity.
Qed.

(** With both fields strings or absent, the handler over JSON values is
    the handler over strings. *)
Lemma wire_checkBrand_strings (generate : Capability) (options : list str)
      (body : Body) :
  Wire.checkBrand generate options (Wire.ofField (Handler.prompt body))
                  (Wire.ofField (Handler.brandName body))
  = Wire.ofResult (checkBrand generate options body).
Proof.
  destruct body as [[p|] [b|]]; unfold Wire.checkBrand, checkBrand;
    cbn [Wire.ofField Handler.prompt Handler.brandName Wire.isFalsy orb];
    try reflexivity.
  - destruct (isEmpty p || isEmpty b); [reflexivity|].
    destruct (isBlankField p); [reflexivity|].
    destruct (isBlankField b); [reflexivity|]. cbn [orb]. cbv zeta.
    rewrite wire_detect_string.
    destruct (detectBrandMention _ b) as [d| |] eqn:E; try reflexivity.
    unfold Wire.onServerError, onServerError. cbv zeta.
    rewrite wire_detect_string.
    destruct (detectBrandMention getCannedResponse b); reflexivity.
  - rewrite orb_true_r. reflexivity.
Qed.

Lemma wire_onServerError_not_400 (prompt brandName : Wire.Value) (error : str) :
  Wire.onServerError prompt brandName <> Wire.Answers (Wire.Status400 error).
Proof.
  unfold Wire.onServerError.
  destruct (Wire.detectBrandMention _ _); discriminate.
Qed.

Lemma whitespace_brand_first (text b : str) :
  text <> [] -> b <> [] -> forallb isWhiteSpace b = true ->
  detectBrandMention text b = Normal (mentionedAt 1).
Proof.
  intros Ht Hb Hws. rewrite detect_passes by assumption.
  rewrite (brandLowerOf_whitespace _ Hws).
  destruct (segmentsOf text) as [|s segments] eqn:E.
  - exfalso. exact (splitChars_not_nil _ _ E).
  - simpl. rewrite includes_nil. reflexivity.
Qed.

(** The handler over any JSON body answers 400 exactly for the refused
    requests: a field is falsy (absent, null, false, 0, the empty string),
    or [prompt] is a string of whitespace, or [prompt] is a string and
    [brandName] a string of whitespace; the answer is then the same
    whatever the generation capability does.  A blank brand name beside a
    truthy prompt that is not a string is not refused: [prompt.trim()]
    throws, and the [catch] block answers 200 with "Yes" at position 1 on
    the canned text. *)
Theorem requests_refused_exactly :
  forall (options : list str) (prompt brandName : Wire.Value),
    (Wire.refused prompt brandName ->
     exists error, forall generate,
       Wire.checkBrand generate options prompt brandName
       = Wire.Answers (Wire.Status400 error)) /\
    (forall generate error,
       Wire.checkBrand generate options prompt brandName
       = Wire.Answers (Wire.Status400 error) ->
       Wire.refused prompt brandName) /\
    (forall generate b,
       Wire.isFalsy prompt = false -> (forall p, prompt <> Wire.VString p) ->
       brandName = Wire.VString b -> b <> [] -> forallb isWhiteSpace b = true ->
       isBlankField b = true /\
       Wire.checkBrand generate options prompt brandName
       = Wire.Answers (Wire.Status200
           {| Wire.sent_prompt := prompt;
              Wire.sent_brandName := brandName;
              Wire.sent_mentioned := lit "Yes";
              Wire.sent_position := Some 1%Z;
              Wire.sent_geminiResponse := getCannedResponse;
              Wire.sent_usedCannedResponse := true;
              Wire.sent_errorOccurred := true |})).
Proof.
  intros options prompt brandName. split; [|split].
  - intros [H|[H|[(p & -> & H)|(p & b & -> & -> & H)]]]; unfold Wire.checkBrand.
    + rewrite H. eexists; intros generate; reflexivity.
    + rewrite H, orb_true_r. eexists; intros generate; reflexivity.
    + destruct (Wire.isFalsy (Wire.VString p) || Wire.isFalsy brandName);
        [eexists; intros generate; reflexivity|].
      rewrite H. eexists; intros generate; reflexivity.
    + destruct (Wire.isFalsy (Wire.VString p) || Wire.isFalsy (Wire.VString b));
        [eexists; intros generate; reflexivity|].
      rewrite H. destruct (isBlankField p); eexists; intros generate; reflexivity.
  - intros generate error. unfold Wire.checkBrand, Wire.refused.
    destruct (Wire.isFalsy prompt || Wire.isFalsy brandName) eqn:E.
    { intros _. apply orb_true_iff in E as [E|E]; auto. }
    destruct prompt as [| |x|z|p|];
      try (intros H; exfalso; exact (wire_onServerError_not_400 _ _ _ H)).
    destruct (isBlankField p) eqn:Ep.
    { intros _. right. right. left. exists p. auto. }
    destruct brandName as [| |x|z|b|];
      try (intros H; exfalso; exact (wire_onServerError_not_400 _ _ _ H)).
    destruct (isBlankField b) eqn:Eb.
    { intros _. right. right. right. exists p, b. auto. }
    cbv zeta. destruct (Wire.detectBrandMention _ _); try discriminate.
    intros H. exfalso. exact (wire_onServerError_not_400 _ _ _ H).
  - intros generate b Hp Hnot -> Hb Hws. split.
    + unfold isBlankField, trim. rewrite (trimStart_whitespace _ Hws). reflexivity.
    + unfold Wire.checkBrand. rewrite Hp. cbn [Wire.isFalsy orb].
      rewrite (isEmpty_false _ Hb).
      assert (Hcatch : Wire.onServerError prompt (Wire.VString b)
                       = Wire.Answers (Wire.Status200
                           {| Wire.sent_prompt := prompt;
                              Wire.sent_brandName := Wire.VString b;
                              Wire.sent_mentioned := lit "Yes";
                              Wire.sent_position := Some 1%Z;
                              Wire.sent_geminiResponse := getCannedResponse;
                              Wire.sent_usedCannedResponse := true;
                              Wire.sent_errorOccurred := true |})).
      { unfold Wire.onServerError. cbv zeta.
        rewrite wire_detect_string.
        rewrite (whitespace_brand_first getCannedResponse b) by (discriminate || assumption).
        reflexivity. }
      destruct prompt as [| |x|z|p|]; try exact Hcatch.
      exfalso. exact (Hnot p eq_refl).
Qed.

Lemma requests_refused_exactly_witness :
  Wire.checkBrand (Sample.scripted []) MODEL_OPTIONS
                  (Wire.VNumber false) (Wire.VString (lit "   "))
  = Wire.Answers (Wire.Status200
      {| Wire.sent_prompt := Wire.VNumber false;
         Wire.sent_brandName := Wire.VString (lit "   ");
         Wire.sent_mentioned := lit "Yes";
         Wire.sent_position := Some 1%Z;
         Wire.sent_geminiResponse := getCannedResponse;
         Wire.sent_usedCannedResponse := true;
         Wire.sent_errorOccurred := true |}).
Proof.
  refine (proj2 (proj2 (proj2
            (requests_refused_exactly MODEL_OPTIONS (Wire.VNumber false)
                                      (Wire.VString (lit "   "))))
            (Sample.scripted []) (lit "   ") eq_refl _ eq_refl _ eq_refl));
    discriminate.
Defined.

(** A request whose brand name is truthy but not a string is never
    answered, unless the validation refuses it for its prompt: the first
    [trim] on a value that is not a string throws a TypeError, and in the
    [catch] block the detector throws another at
    [brandName.toLowerCase()], which nothing catches. *)
Theorem non_string_brand_is_never_answered :
  forall (generate : Capability) (options : list str) (prompt brandName : Wire.Value),
    Wire.isFalsy prompt = false -> Wire.isFalsy brandName = false ->
    (forall b, brandName <> Wire.VString b) ->
    (forall p, prompt = Wire.VString p -> isBlankField p = false) ->
    Wire.checkBrand generate options prompt brandName = Wire.Unanswered.
Proof.
  intros generate options prompt brandName Hp Hb Hnot Hprompt.
  assert (Hcatch : Wire.onServerError prompt brandName = Wire.Unanswered).
  { unfold Wire.onServerError, Wire.detectBrandMention. cbv zeta. rewrite Hb.
    replace (isEmpty getCannedResponse) with false by reflexivity. cbn [orb].
    destruct brandName as [| |x|z|b|]; try reflexivity.
    exfalso. exact (Hnot b eq_refl). }
  unfold Wire.checkBrand. rewrite Hp, Hb. cbn [orb].
  destruct prompt as [| |x|z|p|]; try exact Hcatch.
  rewrite (Hprompt p eq_refl).
  destruct brandName as [| |x|z|b|]; try exact Hcatch.
  exfalso. exact (Hnot b eq_refl).
Qed.

Lemma non_string_brand_is_never_answered_witness :
  Wire.checkBrand (Sample.scripted []) MODEL_OPTIONS
                  (Wire.VString (lit "best CRM")) (Wire.VNumber false)
  = Wire.Unanswered.
Proof.
  refine (non_string_brand_is_never_answered
            (Sample.scripted []) MODEL_OPTIONS
            (Wire.VString (lit "best CRM")) (Wire.VNumber false)
            eq_refl eq_refl _ _).
  - intros b. discriminate.
  - intros p H. inversion H. reflexivity.
Defined.

Lemma tryModels_not_blank (generate : Capability) (prompt : str) (options : list str) :
  forall g s m, tryModels generate prompt g options = Some (s, m) ->
                isBlank (Some s) = false.
Proof.
  induction options as [|m0 options IH]; simpl; intros g s m H; [discriminate|].
  destruct (generate m0 prompt) as [|r]; [eauto|].
  destruct (afterCandidates (afterText g r) r) as [s'|]; [|eauto].
  destruct (isBlank (Some s')) eqn:E; [eauto|].
  inversion H; subst. exact E.
Qed.

(** The text that the loop hands to the detector is never empty and
    never only whitespace, and the loop ends for every behaviour of the
    capability: on success the text passed the emptiness test, and the
    canned text is not blank. *)
Theorem generated_text_is_not_blank :
  forall (generate : Capability) (options : list str) (prompt : str),
    isBlank (Some (geminiResponse (generateWith generate options prompt))) = false.
Proof.
  intros generate options prompt. unfold generateWith.
  destruct (tryModels generate prompt None options) as [[s m]|] eqn:E.
  - simpl geminiResponse. eapply tryModels_not_blank. exact E.
  - vm_compute. reflexivity.
Qed.

Lemma generateWith_not_blank (generate : Capability) (options : list str)
      (prompt : str) :
  isBlank (Some (geminiResponse (generateWith generate options prompt))) = false.
Proof.
  unfold generateWith.
  destruct (tryModels generate prompt None options) as [[s m]|] eqn:E.
  - simpl geminiResponse. eapply tryModels_not_blank. exact E.
  - vm_compute. reflexivity.
Qed.

Lemma splitChars_clean (sep : ascii -> bool) (s : str) :
  forall seg c, In seg (splitChars sep s) -> In c seg -> sep c = false.
Proof.
  induction s as [|x s IH]; simpl; intros seg c Hseg Hc.
  - destruct Hseg as [<-|[]]. destruct Hc.
  - destruct (sep x) eqn:Ex.
    + destruct Hseg as [<-|Hseg]; [destruct Hc|eauto].
    + destruct (splitChars sep s) as [|seg0 rest] eqn:E.
      * destruct Hseg as [<-|[]]. destruct Hc as [<-|[]]. exact Ex.
      * destruct Hseg as [<-|Hseg].
        -- destruct Hc as [<-|Hc]; [exact Ex|].
           apply (IH seg0 c); [left; reflexivity|exact Hc].
        -- apply (IH seg c); [right; exact Hseg|exact Hc].
Qed.

Lemma splitChars_length (sep : ascii -> bool) (s : str) :
  List.length (splitChars sep s) = S (List.length (filter sep s)).
Proof.
  induction s as [|x s IH]; simpl; [reflexivity|].
  destruct (sep x); simpl; [rewrite IH; reflexivity|].
  destruct (splitChars sep s) as [|seg rest]; simpl in *; [discriminate|exact IH].
Qed.

(** The segmenter: the empty text gives one empty segment; a text with
    [n] periods and newlines gives [n + 1] segments, in which no period
    and no newline is left. *)
Theorem segments_of_text :
  forall (text : str),
    segmentsOf [] = [[]] /\
    List.length (segmentsOf text) = S (List.length (filter isSeparator text)) /\
    (forall seg c, In seg (segmentsOf text) -> In c seg -> isSeparator c = false).
Proof.
  intros text. split; [reflexivity|]. split.
  - apply splitChars_length.
  - apply splitChars_clean.
Qed.

(* ================================================================== *)
(** ** The detector: bounds and what it does not look at                *)
(* ================================================================== *)

Lemma firstHit_below (hit : str -> bool) (segments : list str) :
  forall i p, firstHit hit segments i = Some p ->
              (p <= i + Z.of_nat (List.length segments))%Z.
Proof.
  induction segments as [|s segments IH]; simpl; intros i p H; [discriminate|].
  destruct (hit s).
  - inversion H. lia.
  - apply IH in H. lia.
Qed.

Lemma owningSegment_below (segments : list str) :
  forall j n target p, owningSegment segments j n target = Some p ->
                       (p <= j + Z.of_nat (List.length segments))%Z.
Proof.
  induction segments as [|s segments IH]; simpl; intros j n target p H; [discriminate|].
  destruct (target <=? n + len s)%Z.
  - inversion H. lia.
  - apply IH in H. lia.
Qed.

Lemma partialPass_below (textLower brandLower : str) (segments words : list str) :
  forall p, partialPass textLower brandLower segments words = Some p ->
            (p <= Z.of_nat (List.length segments))%Z.
Proof.
  induction words as [|w words IH]; simpl; intros p H; [discriminate|].
  destruct (fuzzyHit _ _); [|auto].
  destruct (owningSegment _ _ _ _) eqn:E; [|auto].
  inversion H; subst. apply owningSegment_below in E. lia.
Qed.

(** A reported position is the number of a segment of the text: it lies
    between 1 and the number of segments, which is one more than the
    number of periods and newlines in the text. *)
Theorem position_within_segments :
  forall (text brandName : str) (r : DetectionResult) (p : Z),
    detectBrandMention text brandName = Normal r ->
    position r = Some p ->
    (1 <= p <= Z.of_nat (List.length (segmentsOf text)))%Z /\
    List.length (segmentsOf text) = S (List.length (filter isSeparator text)).
Proof.
  intros text brandName r p H Hp.
  split; [|apply splitChars_length].
  destruct text as [|t text]; [inversion H; subst; discriminate|].
  destruct brandName as [|b brandName]; [inversion H; subst; discriminate|].
  rewrite detect_passes in H by discriminate.
  destruct (firstHit _ _ _) eqn:E1.
  { inversion H; subst. inversion Hp; subst.
    pose proof (firstHit_above _ _ _ _ E1). pose proof (firstHit_below _ _ _ _ E1). lia. }
  destruct (newRegExp_i _) as [re| |]; try discriminate.
  destruct (firstHit (test re) _ _) eqn:E2.
  { inversion H; subst. inversion Hp; subst.
    pose proof (firstHit_above _ _ _ _ E2). pose proof (firstHit_below _ _ _ _ E2). lia. }
  destruct (partialPass _ _ _ _) eqn:E3.
  { inversion H; subst. inversion Hp; subst.
    pose proof (partialPass_above _ _ _ _ _ E3).
    pose proof (partialPass_below _ _ _ _ _ E3). lia. }
  inversion H; subst. discriminate.
Qed.

Lemma position_within_segments_witness :
  detectBrandMention (lit "Salesforce is a leading CRM. Others include HubSpot.")
                     (lit "HubSpot") = Normal (mentionedAt 2) /\
  (1 <= 2 <= Z.of_nat (List.length
             (segmentsOf (lit "Salesforce is a leading CRM. Others include HubSpot."))))%Z.
Proof.
  assert (H : detectBrandMention
                (lit "Salesforce is a leading CRM. Others include HubSpot.")
                (lit "HubSpot") = Normal (mentionedAt 2)) by (vm_compute; reflexivity).
  exact (conj H (proj1 (position_within_segments _ _ _ 2%Z H eq_refl))).
Defined.

(** *** Case and padding of the brand name *)

Lemma trimStart_padded (pad s : str) :
  forallb isWhiteSpace pad = true -> trimStart (pad ++ s) = trimStart s.
Proof.
  induction pad as [|c pad IH]; simpl; [reflexivity|].
  intros H. apply andb_true_iff in H as [Hc H]. rewrite Hc. auto.
Qed.

Lemma trimStart_then_pad (s pad : str) :
  forallb isWhiteSpace pad = true ->
  trimStart (s ++ pad) = match trimStart s with
                         | [] => []
                         | c :: t => (c :: t) ++ pad
                         end.
Proof.
  intros Hpad. induction s as [|c s IH]; simpl.
  - apply trimStart_whitespace. exact Hpad.
  - destruct (isWhiteSpace c); [exact IH|reflexivity].
Qed.

Lemma forallb_rev {A : Type} (f : A -> bool) (l : list A) :
  forallb f l = true -> forallb f (rev l) = true.
Proof.
  rewrite !forallb_forall. intros H x Hx. apply H. apply in_rev. exact Hx.
Qed.

Lemma trimEnd_padded (s pad : str) :
  forallb isWhiteSpace pad = true -> trimEnd (s ++ pad) = trimEnd s.
Proof.
  intros H. unfold trimEnd. rewrite rev_app_distr.
  rewrite trimStart_padded by (apply forallb_rev; exact H). reflexivity.
Qed.

Lemma trim_padded (pad1 s pad2 : str) :
  forallb isWhiteSpace pad1 = true -> forallb isWhiteSpace pad2 = true ->
  trim (pad1 ++ s ++ pad2) = trim s.
Proof.
  intros H1 H2. unfold trim. rewrite trimStart_padded by exact H1.
  rewrite trimStart_then_pad by exact H2.
  destruct (trimStart s) as [|c t]; [reflexivity|].
  apply trimEnd_padded. exact H2.
Qed.

Lemma toLowerCase_whitespace (pad : str) :
  forallb isWhiteSpace pad = true -> forallb isWhiteSpace (toLowerCase pad) = true.
Proof.
  rewrite !forallb_forall. intros H c Hc. unfold toLowerCase in Hc.
  apply in_map_iff in Hc as [x [<- Hx]]. rewrite lowerChar_keeps_whitespace. auto.
Qed.

(** The detector reads the brand name up to case and surrounding
    whitespace: a brand name in another casing, with whitespace before and
    after it, gives the same outcome on every text. *)
Theorem brand_case_and_padding_ignored :
  forall (text brandName other pad1 pad2 : str),
    brandName <> [] ->
    toLowerCase other = toLowerCase brandName ->
    forallb isWhiteSpace pad1 = true -> forallb isWhiteSpace pad2 = true ->
    detectBrandMention text (pad1 ++ other ++ pad2) = detectBrandMention text brandName.
Proof.
  intros text brandName other pad1 pad2 Hb Hcase H1 H2.
  assert (Ho : other <> []).
  { intros ->. destruct brandName; [congruence|discriminate]. }
  assert (Hne : pad1 ++ other ++ pad2 <> []).
  { intros E. apply app_eq_nil in E as [_ E]. apply app_eq_nil in E as [E _]. auto. }
  assert (Hlow : brandLowerOf (pad1 ++ other ++ pad2) = brandLowerOf brandName).
  { unfold brandLowerOf, toLowerCase. rewrite !map_app.
    fold (toLowerCase pad1) (toLowerCase other) (toLowerCase pad2).
    rewrite trim_padded by (apply toLowerCase_whitespace; assumption).
    rewrite Hcase. reflexivity. }
  destruct text as [|t text]; [reflexivity|].
  rewrite !detect_passes by (assumption || discriminate).
  rewrite Hlow. reflexivity.
Qed.

Lemma brand_case_and_padding_ignored_witness :
  detectBrandMention (lit "We recommend Acme-Corp for this.") (lit "  ACME corp ")
  = detectBrandMention (lit "We recommend Acme-Corp for this.") (lit "Acme Corp").
Proof.
  exact (brand_case_and_padding_ignored
           (lit "We recommend Acme-Corp for this.") (lit "Acme Corp")
           (lit "ACME corp") (lit "  ") (lit " ")
           ltac:(discriminate) eq_refl eq_refl eq_refl).
Defined.

(** *** Case of the text *)

Lemma lowerChar_idempotent (c : ascii) : lowerChar (lowerChar c) = lowerChar c.
Proof. each_code_unit c; reflexivity. Qed.

Lemma toLowerCase_idempotent (s : str) : toLowerCase (toLowerCase s) = toLowerCase s.
Proof.
  unfold toLowerCase. rewrite map_map. apply map_ext. exact lowerChar_idempotent.
Qed.

Lemma lowerChar_separator (c : ascii) : isSeparator (lowerChar c) = isSeparator c.
Proof. each_code_unit c; reflexivity. Qed.

Lemma lowerChar_looseSeparator (c : ascii) :
  isLooseSeparator (lowerChar c) = isLooseSeparator c.
Proof. each_code_unit c; reflexivity. Qed.

Lemma segmentsOf_toLowerCase (text : str) :
  segmentsOf (toLowerCase text) = map toLowerCase (segmentsOf text).
Proof.
  unfold segmentsOf. induction text as [|c text IH]; simpl; [reflexivity|].
  rewrite lowerChar_separator. destruct (isSeparator c).
  - rewrite IH. reflexivity.
  - rewrite IH. destruct (splitChars isSeparator text); reflexivity.
Qed.

Lemma firstHit_map (hit : str -> bool) (f : str -> str) (segments : list str) :
  forall i, firstHit hit (map f segments) i = firstHit (fun s => hit (f s)) segments i.
Proof.
  induction segments as [|s segments IH]; simpl; intros i; [reflexivity|].
  destruct (hit (f s)); [reflexivity|apply IH].
Qed.

Lemma firstHit_same (hit hit' : str -> bool) (segments : list str) :
  (forall s, hit s = hit' s) ->
  forall i, firstHit hit segments i = firstHit hit' segments i.
Proof.
  intros H. induction segments as [|s segments IH]; simpl; intros i; [reflexivity|].
  rewrite H. destruct (hit' s); [reflexivity|apply IH].
Qed.

Lemma len_toLowerCase (s : str) : len (toLowerCase s) = len s.
Proof. unfold len, toLowerCase. rewrite length_map. reflexivity. Qed.

Lemma owningSegment_toLowerCase (segments : list str) :
  forall j n target,
    owningSegment (map toLowerCase segments) j n target =
    owningSegment segments j n target.
Proof.
  induction segments as [|s segments IH]; simpl; intros j n target; [reflexivity|].
  rewrite len_toLowerCase. destruct (target <=? n + len s)%Z; [reflexivity|apply IH].
Qed.

Lemma partialPass_toLowerCase (textLower brandLower : str) (segments words : list str) :
  partialPass textLower brandLower (map toLowerCase segments) words =
  partialPass textLower brandLower segments words.
Proof.
  induction words as [|w words IH]; simpl; [reflexivity|].
  rewrite owningSegment_toLowerCase, IH. reflexivity.
Qed.

Lemma wordsInOrder_lower (sep : ascii -> bool) (words : list str) (found : str) :
  (forall c, sep (lowerChar c) = sep c) ->
  (wordsInOrder sep words (toLowerCase found) <-> wordsInOrder sep words found).
Proof.
  intros Hsep. split.
  - revert found. induction words as [|w words IH]; intros found H.
    + inversion H.
    + inversion H as [w' f Hf | w' words' f gap rest Hf Hg Hrest Hw Heq]; subst.
      * constructor. unfold sameIgnoringCase in *.
        rewrite toLowerCase_idempotent in Hf. exact Hf.
      * unfold toLowerCase in Heq. symmetry in Heq.
        apply map_eq_app in Heq as (f0 & tail & -> & Hf0 & Htail).
        apply map_eq_app in Htail as (gap0 & rest0 & -> & Hgap0 & Hrest0).
        subst. constructor.
        -- unfold sameIgnoringCase in *. fold (toLowerCase f0) in Hf.
           rewrite toLowerCase_idempotent in Hf. exact Hf.
        -- rewrite forallb_forall in *. intros c Hc. rewrite <- Hsep.
           apply Hg. apply in_map. exact Hc.
        -- apply IH. exact Hrest.
  - intros H. induction H as [w f Hf | w words f gap rest Hf Hg Hrest IH].
    + constructor. unfold sameIgnoringCase in *.
      rewrite toLowerCase_idempotent. exact Hf.
    + unfold toLowerCase. rewrite !map_app. constructor.
      * unfold sameIgnoringCase in *. fold (toLowerCase f).
        rewrite toLowerCase_idempotent. exact Hf.
      * rewrite forallb_forall in *. intros c Hc.
        apply in_map_iff in Hc as [x [<- Hx]]. rewrite Hsep. auto.
      * exact IH.
Qed.

Lemma looselyContains_lower (sep : ascii -> bool) (words : list str) (segment : str) :
  (forall c, sep (lowerChar c) = sep c) ->
  (looselyContains sep words (toLowerCase segment) <-> looselyContains sep words segment).
Proof.
  intros Hsep. unfold looselyContains. split.
  - intros (before & found & after & Heq & Hw).
    unfold toLowerCase in Heq.
    apply map_eq_app in Heq as (b0 & tail & -> & <- & Htail).
    apply map_eq_app in Htail as (f0 & a0 & -> & <- & <-).
    exists b0, f0, a0. split; [reflexivity|].
    apply (wordsInOrder_lower sep words f0 Hsep). exact Hw.
  - intros (before & found & after & -> & Hw).
    exists (toLowerCase before), (toLowerCase found), (toLowerCase after). split.
    + unfold toLowerCase. rewrite !map_app. reflexivity.
    + apply (wordsInOrder_lower sep words found Hsep). exact Hw.
Qed.

Lemma detect_toLowerCase (text brandName : str) :
  plain brandName = true ->
  detectBrandMention (toLowerCase text) brandName = detectBrandMention text brandName.
Proof.
  intros Hplain.
  destruct text as [|t text]; [reflexivity|].
  destruct brandName as [|b brandName]; [reflexivity|].
  rewrite !detect_passes by discriminate.
  rewrite toLowerCase_idempotent, segmentsOf_toLowerCase, !firstHit_map.
  rewrite (firstHit_same
             (fun s => includes (toLowerCase (toLowerCase s)) (brandLowerOf (b :: brandName)))
             (fun s => includes (toLowerCase s) (brandLowerOf (b :: brandName))))
    by (intros s; rewrite toLowerCase_idempotent; reflexivity).
  destruct (firstHit _ _ _); [reflexivity|].
  rewrite plain_brand_constructs by (apply plain_brandLower; exact Hplain).
  rewrite firstHit_map.
  rewrite (firstHit_same
             (fun s => test {| pattern := wordsRegex looseClass
                                            (splitWhitespace (brandLowerOf (b :: brandName)));
                               ignoreCase := true |} (toLowerCase s))
             (test {| pattern := wordsRegex looseClass
                                   (splitWhitespace (brandLowerOf (b :: brandName)));
                      ignoreCase := true |})).
  - rewrite partialPass_toLowerCase. reflexivity.
  - intros s. apply Bool.eq_true_iff_eq.
    rewrite !(test_words looseClass isLooseSeparator)
      by (exact looseClass_run || apply splitRuns_not_nil).
    apply looselyContains_lower. exact lowerChar_looseSeparator.
Qed.

Lemma sameUpToCase_lower (text text' : str) :
  Folding.sameUpToCase text text' <-> toLowerCase text = toLowerCase text'.
Proof.
  unfold Folding.sameUpToCase, Folding.sameLetter, toLowerCase. split.
  - induction 1 as [|a b t t' Hab _ IH]; simpl; [reflexivity|].
    rewrite Hab, IH. reflexivity.
  - revert text'. induction text as [|a t IH]; intros [|b t'] H;
      try discriminate H; constructor.
    + simpl in H. inversion H. reflexivity.
    + apply IH. simpl in H. inversion H. reflexivity.
Qed.

(** For a brand name without pattern syntax characters the detector does
    not see the case of the letters of the text: two texts of one length
    whose code units are, index by index, equal or the capital and the
    small form of one letter get the same outcome, with the same
    position. *)
Theorem text_case_ignored :
  forall (text text' brandName : str),
    plain brandName = true ->
    Folding.sameUpToCase text text' ->
    detectBrandMention text brandName = detectBrandMention text' brandName.
Proof.
  intros text text' brandName Hplain H.
  apply sameUpToCase_lower in H.
  rewrite <- (detect_toLowerCase text brandName Hplain).
  rewrite <- (detect_toLowerCase text' brandName Hplain).
  rewrite H. reflexivity.
Qed.

Lemma text_case_ignored_witness :
  detectBrandMention (lit "We Recommend ACME_corp. Others follow.") (lit "Acme Corp")
  = detectBrandMention (lit "we recommend acme_CORP. others follow.") (lit "Acme Corp").
Proof.
  refine (text_case_ignored (lit "We Recommend ACME_corp. Others follow.")
                            (lit "we recommend acme_CORP. others follow.")
                            (lit "Acme Corp") eq_refl _).
  repeat constructor.
Defined.

(** *** Short brand names *)

Lemma partialPass_short_brand (textLower brandLower : str) (segments words : list str) :
  (len (stripNonAlnum brandLower) <= 3)%Z ->
  partialPass textLower brandLower segments words = None.
Proof.
  intros H. induction words as [|w words IH]; simpl; [reflexivity|].
  unfold fuzzyHit.
  replace (3 <? len (stripNonAlnum brandLower))%Z with false
    by (symmetry; apply Z.ltb_ge; exact H).
  rewrite andb_false_r. simpl. exact IH.
Qed.

Lemma firstHit_found (hit : str -> bool) (segments : list str) :
  forall i p, firstHit hit segments i = Some p ->
              exists s, In s segments /\ hit s = true.
Proof.
  induction segments as [|s segments IH]; simpl; intros i p H; [discriminate|].
  destruct (hit s) eqn:E.
  - exists s. auto.
  - apply IH in H as (s' & Hin & Hs'). exists s'. auto.
Qed.

(** A brand name with at most three letters and digits is never matched
    by the partial-word pass: when the detector reports it as mentioned,
    some segment contains it verbatim or matches the pattern of its
    words. *)
Theorem short_brand_is_never_fuzzy :
  forall (text brandName : str) (r : DetectionResult),
    (len (stripNonAlnum (brandLowerOf brandName)) <= 3)%Z ->
    detectBrandMention text brandName = Normal r ->
    mentioned r = true ->
    exists segment, In segment (segmentsOf text) /\
      (containsBrand brandName segment \/
       exists regex,
         newRegExp_i (brandPatternOf (brandLowerOf brandName)) = Constructed regex /\
         test regex segment = true).
Proof.
  intros text brandName r Hshort H Hm.
  destruct text as [|t text]; [inversion H; subst; discriminate|].
  destruct brandName as [|b brandName]; [inversion H; subst; discriminate|].
  rewrite detect_passes in H by discriminate.
  destruct (firstHit _ _ _) eqn:E1.
  { apply firstHit_found in E1 as (s & Hin & Hs). exists s. split; [exact Hin|].
    left. exact Hs. }
  destruct (newRegExp_i _) as [re| |] eqn:Ere; try discriminate.
  destruct (firstHit (test re) _ _) eqn:E2.
  { apply firstHit_found in E2 as (s & Hin & Hs). exists s. split; [exact Hin|].
    right. exists re. auto. }
  rewrite partialPass_short_brand in H by exact Hshort.
  inversion H; subst. discriminate.
Qed.

Lemma short_brand_is_never_fuzzy_witness :
  (len (stripNonAlnum (brandLowerOf (lit "IBM"))) <= 3)%Z /\
  detectBrandMention (lit "Big vendors: ibmcloud and others.") (lit "IBM")
    = Normal (mentionedAt 1) /\
  exists segment, In segment (segmentsOf (lit "Big vendors: ibmcloud and others.")) /\
    (containsBrand (lit "IBM") segment \/
     exists regex,
       newRegExp_i (brandPatternOf (brandLowerOf (lit "IBM"))) = Constructed regex /\
       test regex segment = true).
Proof.
  assert (H1 : (len (stripNonAlnum (brandLowerOf (lit "IBM"))) <= 3)%Z)
    by (vm_compute; discriminate).
  assert (H2 : detectBrandMention (lit "Big vendors: ibmcloud and others.") (lit "IBM")
               = Normal (mentionedAt 1)) by (vm_compute; reflexivity).
  exact (conj H1 (conj H2 (short_brand_is_never_fuzzy _ _ _ H1 H2 eq_refl))).
Defined.

(* ================================================================== *)
(** ** The loop: candidates after the first success                     *)
(* ================================================================== *)

Lemma tryModels_stops (generate generate' : Capability) (prompt : str)
      (options more : list str) :
  (forall m, In m options -> generate' m prompt = generate m prompt) ->
  forall g x, tryModels generate prompt g options = Some x ->
              tryModels generate' prompt g (options ++ more) = Some x.
Proof.
  induction options as [|m options IH]; intros Hsame g x H; [discriminate|].
  simpl in *. rewrite (Hsame m (or_introl eq_refl)).
  assert (Hrest : forall m', In m' options -> generate' m' prompt = generate m' prompt)
    by (intros m' Hin; apply Hsame; right; exact Hin).
  destruct (generate m prompt) as [|r]; [auto|].
  destruct (afterCandidates (afterText g r) r) as [s|]; [|auto].
  destruct (isBlank (Some s)); [auto|exact H].
Qed.

(** Once a candidate has succeeded, the candidates after it play no part:
    whatever models follow in the list and whatever the capability would
    do for them, text, flag and model of the outcome stay the same. *)
Theorem later_candidates_are_not_tried :
  forall (generate generate' : Capability) (options more : list str) (prompt : str),
    usedCannedResponse (generateWith generate options prompt) = false ->
    (forall m, In m options -> generate' m prompt = generate m prompt) ->
    generateWith generate' (options ++ more) prompt = generateWith generate options prompt.
Proof.
  intros generate generate' options more prompt Hok Hsame. unfold generateWith in *.
  destruct (tryModels generate prompt None options) as [[s m]|] eqn:E.
  - rewrite (tryModels_stops generate generate' prompt options more Hsame None _ E).
    reflexivity.
  - discriminate Hok.
Qed.

Lemma later_candidates_are_not_tried_witness :
  generateWith (Sample.scripted [(lit "A", Sample.textResponse (lit "Hello"));
                                 (lit "B", Sample.textResponse (lit "Other"))])
               ([lit "A"] ++ [lit "B"]) (lit "best CRM")
  = generateWith (Sample.scripted [(lit "A", Sample.textResponse (lit "Hello"))])
                 [lit "A"] (lit "best CRM").
Proof.
  refine (later_candidates_are_not_tried
            (Sample.scripted [(lit "A", Sample.textResponse (lit "Hello"))])
            (Sample.scripted [(lit "A", Sample.textResponse (lit "Hello"));
                              (lit "B", Sample.textResponse (lit "Other"))])
            [lit "A"] [lit "B"] (lit "best CRM") eq_refl _).
  intros m [<-|[]]. reflexivity.
Defined.

(* ================================================================== *)
(** ** The handler: what every answer looks like                        *)
(* ================================================================== *)

Lemma exact_pass_hit (text brandName : str) (k : nat) :
  text <> [] -> brandName <> [] ->
  firstSegment (containsBrand brandName) text k ->
  detectBrandMention text brandName = Normal (mentionedAt (Z.of_nat k + 1)).
Proof.
  intros Ht Hb [[segment [Hk Hhit]] Hfirst].
  rewrite detect_passes by assumption.
  erewrite firstHit_first; [reflexivity|exact Hk|exact Hhit|].
  intros j s Hj Hs. specialize (Hfirst j s Hj Hs). unfold containsBrand in Hfirst.
  destruct (includes _ _); [congruence|reflexivity].
Qed.

Lemma detect_invariant (text brandName : str) (r : DetectionResult) :
  detectBrandMention text brandName = Normal r ->
  r = notMentioned \/ exists p, r = mentionedAt p /\ (0 < p)%Z.
Proof.
  intros H.
  destruct text as [|t text]; [inversion H; auto|].
  destruct brandName as [|b brandName]; [inversion H; auto|].
  rewrite detect_passes in H by discriminate.
  destruct (firstHit _ _ _) eqn:E1.
  { inversion H. right. eexists; split; [reflexivity|].
    apply firstHit_above in E1. lia. }
  destruct (newRegExp_i _) as [re| |]; try discriminate.
  destruct (firstHit (test re) _ _) eqn:E2.
  { inversion H. right. eexists; split; [reflexivity|].
    apply firstHit_above in E2. lia. }
  destruct (partialPass _ _ _ _) eqn:E3.
  { inversion H. right. eexists; split; [reflexivity|].
    apply partialPass_above in E3. exact E3. }
  inversion H. auto.
Qed.

(** What a sent answer is made of. *)
Lemma checkBrand_sends (generate : Capability) (options : list str) (body : Body)
      (d : CheckData) :
  checkBrand generate options body = Sends (Json200 d) ->
  exists p b detection,
    Handler.prompt body = Some p /\ Handler.brandName body = Some b /\
    isBlankField p = false /\ isBlankField b = false /\
    detectBrandMention (geminiResponse (generateWith generate options p)) b
      = Normal detection /\
    d = {| data_prompt := p;
           data_brandName := b;
           data_mentioned := yesNo detection;
           data_position := positionOf detection;
           data_geminiResponse := geminiResponse (generateWith generate options p);
           data_usedCannedResponse :=
             usedCannedResponse (generateWith generate options p);
           data_errorOccurred := false |}.
Proof.
  unfold checkBrand. intros H.
  destruct (Handler.prompt body) as [p|]; [|discriminate].
  destruct (Handler.brandName body) as [b|]; [|discriminate].
  destruct (isEmpty p || isEmpty b); [discriminate|].
  destruct (isBlankField p || isBlankField b) eqn:Eblank; [discriminate|].
  apply orb_false_iff in Eblank as [Hp Hb].
  destruct (detectBrandMention _ b) as [detection| |] eqn:E.
  - inversion H. exists p, b, detection. repeat split; assumption.
  - unfold onServerError in H. rewrite (detect_throws_on_canned _ _ E) in H.
    discriminate.
  - discriminate.
Qed.

(** Every 200 answer echoes the prompt and the brand name of the request,
    says "Yes" with a positive position or "No" with position null,
    carries a generated text that is not blank, and carries the canned
    text whenever it is flagged as canned. *)
Theorem answer_invariants :
  forall (generate : Capability) (options : list str) (body : Body) (d : CheckData),
    checkBrand generate options body = Sends (Json200 d) ->
    Handler.prompt body = Some (data_prompt d) /\
    Handler.brandName body = Some (data_brandName d) /\
    ((data_mentioned d = lit "No" /\ data_position d = None) \/
     (data_mentioned d = lit "Yes" /\
      exists n, data_position d = Some n /\ (0 < n)%Z)) /\
    isBlank (Some (data_geminiResponse d)) = false /\
    (data_usedCannedResponse d = true -> data_geminiResponse d = getCannedResponse).
Proof.
  intros generate options body d H.
  apply checkBrand_sends in H as (p & b & detection & Hp & Hb & _ & _ & Hd & ->).
  simpl. repeat split; try assumption.
  - apply detect_invariant in Hd as [->|(n & -> & Hn)].
    + left. split; reflexivity.
    + right. split; [reflexivity|]. exists n. auto.
  - apply generateWith_not_blank.
  - unfold generateWith.
    destruct (tryModels generate p None options) as [[s m]|]; simpl;
      [discriminate|reflexivity].
Qed.

Lemma answer_invariants_witness :
  let generate :=
    Sample.scripted
      [(lit "gemini-2.5-flash",
        Sample.textResponse (lit "Salesforce is a leading CRM. Others include HubSpot."))] in
  let body := {| Handler.prompt := Some (lit "best CRM");
                 Handler.brandName := Some (lit "HubSpot") |} in
  exists d,
    checkBrand generate MODEL_OPTIONS body = Sends (Json200 d) /\
    data_mentioned d = lit "Yes" /\ data_position d = Some 2%Z /\
    Handler.prompt body = Some (data_prompt d).
Proof.
  cbv zeta. eexists.
  assert (H : checkBrand
                (Sample.scripted
                   [(lit "gemini-2.5-flash",
                     Sample.textResponse
                       (lit "Salesforce is a leading CRM. Others include HubSpot."))])
                MODEL_OPTIONS
                {| Handler.prompt := Some (lit "best CRM");
                   Handler.brandName := Some (lit "HubSpot") |}
              = Sends (Json200
                  {| data_prompt := lit "best CRM";
                     data_brandName := lit "HubSpot";
                     data_mentioned := lit "Yes";
                     data_position := Some 2%Z;
                     data_geminiResponse :=
                       lit "Salesforce is a leading CRM. Others include HubSpot.";
                     data_usedCannedResponse := false;
                     data_errorOccurred := false |}))
    by (vm_compute; reflexivity).
  split; [exact H|]. split; [reflexivity|]. split; [reflexivity|].
  exact (proj1 (answer_invariants _ _ _ _ H)).
Defined.

(** End to end: for a request with non-blank prompt and brand name, when
    the first model's [text()] returns a text that is not blank, what the
    handler does is decided by the detector on that text.  If the detector
    returns, the answer is a 200 that echoes the request and carries that
    text with [usedCannedResponse] false, no [errorOccurred], and the
    detector's verdict; if the detector throws, nothing is sent.  And if
    segment [k] of the text is the first that contains the brand name, the
    answer says "Yes" with position [k + 1]. *)
Theorem first_model_text_is_reported :
  forall (generate : Capability) (m : str) (rest : list str) (r : Response)
         (s p b : str),
    isBlankField p = false -> isBlankField b = false ->
    generate m p = Responds r -> text r = TextReturns s ->
    isBlank (Some s) = false ->
    checkBrand generate (m :: rest)
               {| Handler.prompt := Some p; Handler.brandName := Some b |}
    = match detectBrandMention s b with
      | Normal detection =>
          Sends (Json200
            {| data_prompt := p;
               data_brandName := b;
               data_mentioned := if mentioned detection then lit "Yes" else lit "No";
               data_position := if mentioned detection then position detection else None;
               data_geminiResponse := s;
               data_usedCannedResponse := false;
               data_errorOccurred := false |})
      | Throws => Rejects
      | Unmodelled => OutsideModel
      end /\
    forall k : nat,
      firstSegment (containsBrand b) s k ->
      checkBrand generate (m :: rest)
                 {| Handler.prompt := Some p; Handler.brandName := Some b |}
      = Sends (Json200
          {| data_prompt := p;
             data_brandName := b;
             data_mentioned := lit "Yes";
             data_position := Some (Z.of_nat k + 1)%Z;
             data_geminiResponse := s;
             data_usedCannedResponse := false;
             data_errorOccurred := false |}).
Proof.
  intros generate m rest r s p b Hp Hb Hgen Htext Hs.
  assert (Hpe : isEmpty p = false) by (destruct p; [discriminate Hp|reflexivity]).
  assert (Hbe : isEmpty b = false) by (destruct b; [discriminate Hb|reflexivity]).
  assert (Hout : generateWith generate (m :: rest) p =
                 {| geminiResponse := s; usedCannedResponse := false;
                    modelUsed := Some m |}).
  { unfold generateWith. simpl. rewrite Hgen. unfold afterText. rewrite Htext.
    assert (Hf : isFalsy (Some s) = false)
      by (destruct s; [discriminate Hs|reflexivity]).
    unfold afterCandidates. rewrite Hf, Hs. reflexivity. }
  assert (Hall : checkBrand generate (m :: rest)
                   {| Handler.prompt := Some p; Handler.brandName := Some b |}
                 = match detectBrandMention s b with
                   | Normal detection => Sends (payload p b detection s false false)
                   | Throws => Rejects
                   | Unmodelled => OutsideModel
                   end).
  { unfold checkBrand. cbn [Handler.prompt Handler.brandName].
    rewrite Hpe, Hbe, Hp, Hb. cbn [orb]. cbv zeta. rewrite Hout.
    cbn [geminiResponse usedCannedResponse].
    destruct (detectBrandMention s b) as [d| |] eqn:E; try reflexivity.
    unfold onServerError. cbv zeta. rewrite (detect_throws_on_canned _ _ E).
    reflexivity. }
  split.
  - rewrite Hall. destruct (detectBrandMention s b); reflexivity.
  - intros k Hseg. rewrite Hall. rewrite (exact_pass_hit s b k).
    + reflexivity.
    + destruct s; [discriminate Hs|discriminate].
    + destruct b; [discriminate Hbe|discriminate].
    + exact Hseg.
Qed.

Lemma first_model_text_is_reported_witness :
  checkBrand
    (Sample.scripted
       [(lit "gemini-2.5-flash",
         Sample.textResponse (lit "Salesforce is a leading CRM. Others include HubSpot."))])
    (lit "gemini-2.5-flash" :: [lit "gemini-2.5-pro"; lit "gemini-2.0-flash-exp"])
    {| Handler.prompt := Some (lit "best CRM");
       Handler.brandName := Some (lit "Salesforce") |}
  = Sends (Json200
      {| data_prompt := lit "best CRM";
         data_brandName := lit "Salesforce";
         data_mentioned := lit "Yes";
         data_position := Some (Z.of_nat 0 + 1)%Z;
         data_geminiResponse :=
           lit "Salesforce is a leading CRM. Others include HubSpot.";
         data_usedCannedResponse := false;
         data_errorOccurred := false |}).
Proof.
  refine (proj2 (first_model_text_is_reported
            (Sample.scripted
               [(lit "gemini-2.5-flash",
                 Sample.textResponse
                   (lit "Salesforce is a leading CRM. Others include HubSpot."))])
            (lit "gemini-2.5-flash") [lit "gemini-2.5-pro"; lit "gemini-2.0-flash-exp"]
            {| text := TextReturns
                         (lit "Salesforce is a leading CRM. Others include HubSpot.");
               candidates := None |}
            (lit "Salesforce is a leading CRM. Others include HubSpot.")
            (lit "best CRM") (lit "Salesforce")
            eq_refl eq_refl eq_refl eq_refl eq_refl) 0 _).
  split.
  - exists (lit "Salesforce is a leading CRM"). split; reflexivity.
  - intros j segment Hj. lia.
Defined.

(* ================================================================== *)
(** ** The earlier server against the current one                       *)
(* ================================================================== *)

(** The two handlers give the same result for a request whenever the one
    call of the earlier server fails, or its [text()] returns a text that
    is not blank, or its [text()] is unusable and the response holds no
    non-blank parts either: the current server, run with the earlier
    model as its only candidate, differs only through its test for empty
    text and its use of the parts. *)
Theorem earlier_server_agrees :
  forall (generate : Capability) (body : Body),
    (forall p, Handler.prompt body = Some p ->
       match generate Legacy.MODEL_NAME p with
       | GenerationFails => True
       | Responds r =>
           match text r with
           | TextReturns s => isBlank (Some s) = false
           | NotAFunction | TextThrows => isBlank (extractText r) = true
           end
       end) ->
    Legacy.checkBrand generate body = checkBrand generate [Legacy.MODEL_NAME] body.
Proof.
  intros generate body H. unfold Legacy.checkBrand, checkBrand.
  destruct (Handler.prompt body) as [p|]; [|reflexivity].
  destruct (Handler.brandName body) as [b|]; [|reflexivity].
  destruct (isEmpty p || isEmpty b); [reflexivity|].
  destruct (isBlankField p || isBlankField b); [reflexivity|].
  specialize (H p eq_refl).
  assert (E : Legacy.generateOnce generate p =
              (geminiResponse (generateWith generate [Legacy.MODEL_NAME] p),
               usedCannedResponse (generateWith generate [Legacy.MODEL_NAME] p))).
  { unfold Legacy.generateOnce, generateWith. simpl.
    destruct (generate Legacy.MODEL_NAME p) as [|r]; [reflexivity|].
    unfold extractText in H. unfold afterText in *.
    destruct (text r) as [| |s].
    - destruct (afterCandidates None r) as [s'|]; [rewrite H|]; reflexivity.
    - destruct (afterCandidates None r) as [s'|]; [rewrite H|]; reflexivity.
    - assert (Hf : isFalsy (Some s) = false)
        by (destruct s; [discriminate H|reflexivity]).
      unfold afterCandidates. rewrite Hf, H. reflexivity. }
  rewrite E. reflexivity.
Qed.

Lemma earlier_server_agrees_witness :
  Legacy.checkBrand
    (Sample.scripted [(Legacy.MODEL_NAME,
                       Sample.textResponse (lit "Try Acme Corp. It is good."))])
    {| Handler.prompt := Some (lit "best tool");
       Handler.brandName := Some (lit "acme corp") |}
  = checkBrand
      (Sample.scripted [(Legacy.MODEL_NAME,
                         Sample.textResponse (lit "Try Acme Corp. It is good."))])
      [Legacy.MODEL_NAME]
      {| Handler.prompt := Some (lit "best tool");
         Handler.brandName := Some (lit "acme corp") |}.
Proof.
  refine (earlier_server_agrees
            (Sample.scripted [(Legacy.MODEL_NAME,
                               Sample.textResponse (lit "Try Acme Corp. It is good."))])
            {| Handler.prompt := Some (lit "best tool");
               Handler.brandName := Some (lit "acme corp") |} _).
  intros p _. reflexivity.
Defined.

(** The earlier server has no test for empty text: when [text()] returns
    the empty string, the detector's guard answers and the request gets
    "No" with an empty [geminiResponse] that is not flagged as canned. *)
Theorem earlier_server_keeps_empty_text :
  forall (generate : Capability) (r : Response) (p b : str),
    isBlankField p = false -> isBlankField b = false ->
    generate Legacy.MODEL_NAME p = Responds r -> text r = TextReturns [] ->
    Legacy.checkBrand generate {| Handler.prompt := Some p; Handler.brandName := Some b |}
    = Sends (Json200
        {| data_prompt := p;
           data_brandName := b;
           data_mentioned := lit "No";
           data_position := None;
           data_geminiResponse := [];
           data_usedCannedResponse := false;
           data_errorOccurred := false |}).
Proof.
  intros generate r p b Hp Hb Hgen Htext.
  assert (Hpe : isEmpty p = false) by (destruct p; [discriminate Hp|reflexivity]).
  assert (Hbe : isEmpty b = false) by (destruct b; [discriminate Hb|reflexivity]).
  unfold Legacy.checkBrand, Legacy.generateOnce. simpl.
  rewrite Hpe, Hbe, Hp, Hb, Hgen, Htext. reflexivity.
Qed.

Lemma earlier_server_keeps_empty_text_witness :
  Legacy.checkBrand
    (Sample.scripted [(Legacy.MODEL_NAME, Sample.textResponse [])])
    {| Handler.prompt := Some (lit "best CRM");
       Handler.brandName := Some (lit "Salesforce") |}
  = Sends (Json200
      {| data_prompt := lit "best CRM";
         data_brandName := lit "Salesforce";
         data_mentioned := lit "No";
         data_position := None;
         data_geminiResponse := [];
         data_usedCannedResponse := false;
         data_errorOccurred := false |}).
Proof.
  exact (earlier_server_keeps_empty_text
           (Sample.scripted [(Legacy.MODEL_NAME, Sample.textResponse [])])
           {| text := TextReturns []; candidates := None |}
           (lit "best CRM") (lit "Salesforce") eq_refl eq_refl eq_refl eq_refl).
Defined.

(** In the earlier server too, a SyntaxError of the detector leaves the
    [try] block for a [catch] block that calls the detector again with
    the same brand name: the handler rejects, and no answer it sends
    carries [errorOccurred]. *)
Theorem earlier_server_rejects_on_detector_failure :
  forall (generate : Capability) (p b : str),
    isBlankField p = false -> isBlankField b = false ->
    let body := {| Handler.prompt := Some p; Handler.brandName := Some b |} in
    (detectBrandMention (fst (Legacy.generateOnce generate p)) b = Throws ->
     Legacy.checkBrand generate body = Rejects) /\
    (forall data, Legacy.checkBrand generate body = Sends (Json200 data) ->
                  data_errorOccurred data = false).
Proof.
  intros generate p b Hp Hb. cbv zeta.
  assert (Hpe : isEmpty p = false) by (destruct p; [discriminate Hp|reflexivity]).
  assert (Hbe : isEmpty b = false) by (destruct b; [discriminate Hb|reflexivity]).
  unfold Legacy.checkBrand. simpl. rewrite Hpe, Hbe, Hp, Hb. simpl.
  destruct (Legacy.generateOnce generate p) as [g u]. simpl.
  destruct (detectBrandMention g b) as [d| |] eqn:E.
  - split; [discriminate|]. intros data H. inversion H. reflexivity.
  - unfold onServerError. rewrite (detect_throws_on_canned _ _ E).
    split; [reflexivity|discriminate].
  - split; discriminate.
Qed.

Lemma earlier_server_rejects_on_detector_failure_witness :
  Legacy.checkBrand
    (Sample.scripted [(Legacy.MODEL_NAME, Sample.textResponse (lit "I like Java."))])
    {| Handler.prompt := Some (lit "best language");
       Handler.brandName := Some (lit "C++") |}
  = Rejects.
Proof.
  exact (proj1 (earlier_server_rejects_on_detector_failure
                  (Sample.scripted [(Legacy.MODEL_NAME,
                                     Sample.textResponse (lit "I like Java."))])
                  (lit "best language") (lit "C++") eq_refl eq_refl)
               ltac:(vm_compute; reflexivity)).
Defined.

(* ================================================================== *)
(** ** The page                                                         *)
(* ================================================================== *)

Lemma errorOrDefault_not_empty (e : option str) : Frontend.errorOrDefault e <> [].
Proof. destruct e as [[|c e]|]; discriminate. Qed.

Lemma trim_not_blank (s : str) : trim s <> [] -> isBlankField s = false.
Proof.
  unfold isBlankField, len. intros H. destruct (trim s); [congruence|reflexivity].
Qed.

(** With a blank prompt or a blank brand name the form posts nothing:
    whatever the server would answer, the rows and the loading flag stay
    as they are and the message asks for both fields. *)
Theorem blank_form_posts_nothing :
  forall (post post' : str -> str -> Frontend.Fetched) (st : Frontend.State),
    trim (Frontend.prompt st) = [] \/ trim (Frontend.brandName st) = [] ->
    Frontend.handleSubmit post st = Frontend.handleSubmit post' st /\
    Frontend.results (Frontend.handleSubmit post st) = Frontend.results st /\
    Frontend.loading (Frontend.handleSubmit post st) = Frontend.loading st /\
    Frontend.error (Frontend.handleSubmit post st) = lit "Please fill in both fields".
Proof.
  intros post post' st H. unfold Frontend.handleSubmit.
  assert (E : isEmpty (trim (Frontend.prompt st)) ||
              isEmpty (trim (Frontend.brandName st)) = true).
  { destruct H as [-> | ->]; [reflexivity|apply orb_true_r]. }
  rewrite E. repeat split.
Qed.

Lemma blank_form_posts_nothing_witness :
  let st := {| Frontend.prompt := lit "best CRM"; Frontend.brandName := lit "   ";
               Frontend.results := []; Frontend.loading := false;
               Frontend.error := [] |} in
  Frontend.error (Frontend.handleSubmit (fun _ _ => Frontend.FetchFails) st)
  = lit "Please fill in both fields".
Proof.
  cbv zeta.
  exact (proj2 (proj2 (proj2
    (blank_form_posts_nothing
       (fun _ _ => Frontend.FetchFails) (fun _ _ => Frontend.FetchFails)
       {| Frontend.prompt := lit "best CRM"; Frontend.brandName := lit "   ";
          Frontend.results := []; Frontend.loading := false;
          Frontend.error := [] |}
       (or_intror eq_refl))))).
Defined.

(** Whatever comes back, a submission either puts one row in front of
    the rows there were and clears the message, or leaves the rows as
    they were and shows a message that is not empty. *)
Theorem submission_adds_a_row_or_a_message :
  forall (post : str -> str -> Frontend.Fetched) (st : Frontend.State),
    (exists d, Frontend.results (Frontend.handleSubmit post st) = d :: Frontend.results st /\
               Frontend.error (Frontend.handleSubmit post st) = []) \/
    (Frontend.results (Frontend.handleSubmit post st) = Frontend.results st /\
     Frontend.error (Frontend.handleSubmit post st) <> []).
Proof.
  intros post st. unfold Frontend.handleSubmit.
  destruct (isEmpty (trim (Frontend.prompt st)) ||
            isEmpty (trim (Frontend.brandName st))).
  - right. split; [reflexivity|discriminate].
  - destruct (post (Frontend.prompt st) (Frontend.brandName st)) as [|reply].
    + right. split; [reflexivity|discriminate].
    + destruct (Frontend.success reply); [destruct (Frontend.data reply) as [d|]|].
      * left. exists d. split; reflexivity.
      * right. split; [reflexivity|apply errorOrDefault_not_empty].
      * right. split; [reflexivity|apply errorOrDefault_not_empty].
Qed.

(** A request that the form posts passes the server's validation: with
    both fields non-blank the server never answers 400, and when it
    answers, the page puts the answer, which echoes the two fields, in
    front of its rows, clears the message and ends loading. *)
Theorem posted_request_is_answered_with_a_row :
  forall (generate : Capability) (options : list str)
         (post : str -> str -> Frontend.Fetched) (st : Frontend.State) (r : HttpResponse),
    trim (Frontend.prompt st) <> [] -> trim (Frontend.brandName st) <> [] ->
    checkBrand generate options (Frontend.bodyOf st) = Sends r ->
    post (Frontend.prompt st) (Frontend.brandName st) = Frontend.Arrives (Frontend.replyOf r) ->
    exists d,
      r = Json200 d /\
      data_prompt d = Frontend.prompt st /\
      data_brandName d = Frontend.brandName st /\
      Frontend.handleSubmit post st =
        {| Frontend.prompt := Frontend.prompt st;
           Frontend.brandName := Frontend.brandName st;
           Frontend.results := d :: Frontend.results st;
           Frontend.loading := false;
           Frontend.error := [] |}.
Proof.
  intros generate options post st r Hp Hb Hsent Hpost.
  assert (Hr : exists d, r = Json200 d).
  { unfold checkBrand, Frontend.bodyOf in Hsent. simpl in Hsent.
    assert (Hpe : isEmpty (Frontend.prompt st) = false)
      by (destruct (Frontend.prompt st); [exfalso; apply Hp; reflexivity|reflexivity]).
    assert (Hbe : isEmpty (Frontend.brandName st) = false)
      by (destruct (Frontend.brandName st); [exfalso; apply Hb; reflexivity|reflexivity]).
    rewrite Hpe, Hbe, (trim_not_blank _ Hp), (trim_not_blank _ Hb) in Hsent.
    simpl in Hsent.
    destruct (detectBrandMention _ _) as [d| |] eqn:E.
    - inversion Hsent. eexists. reflexivity.
    - unfold onServerError in Hsent. rewrite (detect_throws_on_canned _ _ E) in Hsent.
      discriminate.
    - discriminate. }
  destruct Hr as [d ->]. exists d.
  pose proof (checkBrand_sends _ _ _ _ Hsent) as (p & b & det & Hp' & Hb' & _ & _ & _ & Hd).
  unfold Frontend.bodyOf in Hp', Hb'. simpl in Hp', Hb'.
  inversion Hp'; inversion Hb'; subst p b.
  split; [reflexivity|]. split; [rewrite Hd; reflexivity|].
  split; [rewrite Hd; reflexivity|].
  unfold Frontend.handleSubmit.
  assert (E : isEmpty (trim (Frontend.prompt st)) ||
              isEmpty (trim (Frontend.brandName st)) = false).
  { destruct (trim (Frontend.prompt st)); [congruence|].
    destruct (trim (Frontend.brandName st)); [congruence|reflexivity]. }
  rewrite E, Hpost. reflexivity.
Qed.

Lemma posted_request_is_answered_with_a_row_witness :
  let generate :=
    Sample.scripted
      [(lit "gemini-2.5-flash",
        Sample.textResponse (lit "Salesforce is a leading CRM. Others include HubSpot."))] in
  let st := {| Frontend.prompt := lit "best CRM"; Frontend.brandName := lit "HubSpot";
               Frontend.results := []; Frontend.loading := true;
               Frontend.error := [] |} in
  let answer :=
    {| data_prompt := lit "best CRM";
       data_brandName := lit "HubSpot";
       data_mentioned := lit "Yes";
       data_position := Some 2%Z;
       data_geminiResponse := lit "Salesforce is a leading CRM. Others include HubSpot.";
       data_usedCannedResponse := false;
       data_errorOccurred := false |} in
  checkBrand generate MODEL_OPTIONS (Frontend.bodyOf st) = Sends (Json200 answer) /\
  exists d,
    Json200 answer = Json200 d /\
    data_prompt d = Frontend.prompt st /\
    data_brandName d = Frontend.brandName st /\
    Frontend.handleSubmit
      (fun _ _ => Frontend.Arrives (Frontend.replyOf (Json200 answer))) st =
      {| Frontend.prompt := Frontend.prompt st;
         Frontend.brandName := Frontend.brandName st;
         Frontend.results := d :: Frontend.results st;
         Frontend.loading := false;
         Frontend.error := [] |}.
Proof.
  cbv zeta.
  assert (H : checkBrand
                (Sample.scripted
                   [(lit "gemini-2.5-flash",
                     Sample.textResponse
                       (lit "Salesforce is a leading CRM. Others include HubSpot."))])
                MODEL_OPTIONS
                (Frontend.bodyOf
                   {| Frontend.prompt := lit "best CRM";
                      Frontend.brandName := lit "HubSpot";
                      Frontend.results := []; Frontend.loading := true;
                      Frontend.error := [] |})
              = Sends (Json200
                  {| data_prompt := lit "best CRM";
                     data_brandName := lit "HubSpot";
                     data_mentioned := lit "Yes";
                     data_position := Some 2%Z;
                     data_geminiResponse :=
                       lit "Salesforce is a leading CRM. Others include HubSpot.";
                     data_usedCannedResponse := false;
                     data_errorOccurred := false |}))
    by (vm_compute; reflexivity).
  split; [exact H|].
  refine (posted_request_is_answered_with_a_row _ _ _ _ _ _ _ H eq_refl);
    vm_compute; discriminate.
Defined.

(** The CSV rows of answers of the server: a row shows 'N/A' as its
    position exactly when it says "No", and a positive number when it says
    "Yes"; the test [result.position || 'N/A'] never meets a position 0.
    With no results [downloadCSV] makes no file and sets the message "No
    results to download", leaving the rest of the state; with results it
    makes a file of one row for each result, in their order, and leaves
    the state as it is. *)
Theorem csv_rows_of_answers :
  forall (generate : Capability) (options : list str) (body : Body) (d : CheckData),
    checkBrand generate options body = Sends (Json200 d) ->
    ((Frontend.Mentioned (Frontend.rowOf d) = lit "No" /\
      Frontend.Position (Frontend.rowOf d) = Frontend.Text (lit "N/A")) \/
     (Frontend.Mentioned (Frontend.rowOf d) = lit "Yes" /\
      exists n, Frontend.Position (Frontend.rowOf d) = Frontend.Number n /\ (0 < n)%Z)) /\
    (forall st,
       (Frontend.results st = [] ->
        Frontend.downloadCSV st =
          ({| Frontend.prompt := Frontend.prompt st;
              Frontend.brandName := Frontend.brandName st;
              Frontend.results := [];
              Frontend.loading := Frontend.loading st;
              Frontend.error := lit "No results to download" |}, None)) /\
       (Frontend.results st <> [] ->
        exists rows,
          Frontend.downloadCSV st = (st, Some rows) /\
          List.length rows = List.length (Frontend.results st) /\
          forall i, nth_error rows i =
                    option_map Frontend.rowOf (nth_error (Frontend.results st) i))).
Proof.
  intros generate options body d H. split.
  - apply checkBrand_sends in H as (p & b & det & _ & _ & _ & _ & Hd & ->).
    simpl. apply detect_invariant in Hd as [->|(n & -> & Hn)].
    + left. split; reflexivity.
    + right. split; [reflexivity|]. exists n. split; [|exact Hn].
      unfold Frontend.positionCell. simpl.
      replace (n =? 0)%Z with false by (symmetry; apply Z.eqb_neq; lia). reflexivity.
  - intros st. unfold Frontend.downloadCSV. split.
    + intros E. rewrite E. reflexivity.
    + intros Hne. destruct (Frontend.results st) as [|x rows] eqn:E; [congruence|].
      exists (Frontend.csvData (x :: rows)). split; [reflexivity|]. split.
      * unfold Frontend.csvData. apply length_map.
      * intros i. unfold Frontend.csvData. apply nth_error_map.
Qed.

Lemma csv_rows_of_answers_witness :
  let generate :=
    Sample.scripted
      [(lit "gemini-2.5-flash",
        Sample.textResponse (lit "Salesforce is a leading CRM. Others include HubSpot."))] in
  let answer :=
    {| data_prompt := lit "best CRM";
       data_brandName := lit "Zylocorp";
       data_mentioned := lit "No";
       data_position := None;
       data_geminiResponse := lit "Salesforce is a leading CRM. Others include HubSpot.";
       data_usedCannedResponse := false;
       data_errorOccurred := false |} in
  let st :=
    {| Frontend.prompt := []; Frontend.brandName := [];
       Frontend.results := [answer]; Frontend.loading := false;
       Frontend.error := [] |} in
  checkBrand generate MODEL_OPTIONS
             {| Handler.prompt := Some (lit "best CRM");
                Handler.brandName := Some (lit "Zylocorp") |}
  = Sends (Json200 answer) /\
  Frontend.rowOf answer =
    {| Frontend.Prompt := lit "best CRM"; Frontend.Brand_Name := lit "Zylocorp";
       Frontend.Mentioned := lit "No"; Frontend.Position := Frontend.Text (lit "N/A") |} /\
  exists rows,
    Frontend.downloadCSV st = (st, Some rows) /\
    List.length rows = List.length (Frontend.results st) /\
    forall i, nth_error rows i =
              option_map Frontend.rowOf (nth_error (Frontend.results st) i).
Proof.
  cbv zeta.
  assert (H : checkBrand
                (Sample.scripted
                   [(lit "gemini-2.5-flash",
                     Sample.textResponse
                       (lit "Salesforce is a leading CRM. Others include HubSpot."))])
                MODEL_OPTIONS
                {| Handler.prompt := Some (lit "best CRM");
                   Handler.brandName := Some (lit "Zylocorp") |}
              = Sends (Json200
                  {| data_prompt := lit "best CRM";
                     data_brandName := lit "Zylocorp";
                     data_mentioned := lit "No";
                     data_position := None;
                     data_geminiResponse :=
                       lit "Salesforce is a leading CRM. Others include HubSpot.";
                     data_usedCannedResponse := false;
                     data_errorOccurred := false |}))
    by (vm_compute; reflexivity).
  split; [exact H|]. split; [reflexivity|].
  refine (proj2 (proj2 (csv_rows_of_answers _ _ _ _ H) _) _).
  discriminate.
Defined.

(* ================================================================== *)
(** ** No mention without a cause                                       *)
(* ================================================================== *)



